(** * Dice scores and losses of the U-Net notebooks

    A shallow embedding of the four scoring functions of the inference
    notebook ([calc_dice], [dice_coef], [dice_coef_loss],
    [combined_dice_ce_loss]) and of the array operations they call
    (numpy / TensorFlow broadcasting, [np.sum], [tf.reduce_sum],
    [tf.reduce_mean], [tf.log]).

    Numbers.  A finite array entry is a real number and arithmetic on finite
    values is exact: rounding and overflow are not modelled.  The two
    operations of the source that leave the reals, a division by zero and a
    logarithm of a non-positive number, produce the value [NonFinite], which
    stands for the IEEE results inf, -inf and nan; every operation applied to
    [NonFinite] gives [NonFinite], as +, *, / by a finite count and log do on
    those values in the source's expressions.

    Rounding.  [calc_dice_f64] is [calc_dice] again on binary64 entries, with
    the kernel's IEEE arithmetic, for the properties that rounding decides. *)

From Stdlib Require Import Reals Lra Lia List ZArith Bool Permutation.
From Stdlib Require Import Floats.
Import ListNotations.

Local Open Scope R_scope.

(** ** Exceptions and results *)

(** The exceptions the array libraries raise in these functions: operands
    that cannot be broadcast together, and a reduction axis that is out of
    range or repeated. *)
Inductive exn : Type :=
| BroadcastError
| AxisError.

Inductive result (A : Type) : Type :=
| Ok (a : A)
| Raise (e : exn).

Arguments Ok {A} a.
Arguments Raise {A} e.

Definition bind {A B : Type} (r : result A) (k : A -> result B) : result B :=
  match r with
  | Ok a => k a
  | Raise e => Raise e
  end.

Notation "x <- r ;; k" := (bind r (fun x => k))
  (at level 61, r at next level, right associativity).

(** ** Numbers *)

Inductive num : Type :=
| Fin (r : R)
| NonFinite.

Definition nadd (a b : num) : num :=
  match a, b with
  | Fin x, Fin y => Fin (x + y)
  | _, _ => NonFinite
  end.

Definition nmul (a b : num) : num :=
  match a, b with
  | Fin x, Fin y => Fin (x * y)
  | _, _ => NonFinite
  end.

Definition nneg (a : num) : num :=
  match a with
  | Fin x => Fin (- x)
  | NonFinite => NonFinite
  end.

(** [x / y] on finite floats: inf or nan when [y] is zero. *)
Definition fdiv (x y : R) : num :=
  if Req_dec_T y 0 then NonFinite else Fin (x / y).

Definition ndiv (a b : num) : num :=
  match a, b with
  | Fin x, Fin y => fdiv x y
  | _, _ => NonFinite
  end.

(** [tf.log]: -inf at zero, nan below. *)
Definition tf_log (a : num) : num :=
  match a with
  | Fin x => if Rlt_dec 0 x then Fin (ln x) else NonFinite
  | NonFinite => NonFinite
  end.

(** ** Arrays *)

(** An n-dimensional array: its shape and its entries in row-major order. *)
Record tensor (A : Type) : Type := mkT { shape : list nat; data : list A }.

Arguments mkT {A} shape data.
Arguments shape {A} t.
Arguments data {A} t.

Definition ndarray : Type := tensor R.

(** Number of entries of an array of shape [s]. *)
Definition size (s : list nat) : nat := fold_right Nat.mul 1%nat s.

Definition wf {A : Type} (t : tensor A) : Prop :=
  length (data t) = size (shape t).

Definition tmap {A B : Type} (f : A -> B) (t : tensor A) : tensor B :=
  mkT (shape t) (map f (data t)).

Fixpoint zipWith {A B C : Type} (f : A -> B -> C) (l : list A) (m : list B)
  : list C :=
  match l, m with
  | a :: l', b :: m' => f a b :: zipWith f l' m'
  | _, _ => []
  end.

(** [chunks k n d]: the first [n] consecutive blocks of [k] entries of [d]. *)
Fixpoint chunks {A : Type} (k n : nat) (d : list A) : list (list A) :=
  match n with
  | O => []
  | S n' => firstn k d :: chunks k n' (skipn k d)
  end.

Definition sum_list (l : list R) : R := fold_right Rplus 0 l.

(** *** Broadcasting *)

Definition broadcast_dim (a b : nat) : option nat :=
  if (a =? b)%nat then Some a
  else if (a =? 1)%nat then Some b
  else if (b =? 1)%nat then Some a
  else None.

(** Shapes are compared from their last dimension backwards. *)
Fixpoint broadcast_rev (s1 s2 : list nat) : option (list nat) :=
  match s1, s2 with
  | [], s => Some s
  | s, [] => Some s
  | a :: s1', b :: s2' =>
      match broadcast_dim a b, broadcast_rev s1' s2' with
      | Some d, Some s => Some (d :: s)
      | _, _ => None
      end
  end.

Definition broadcast_shapes (s1 s2 : list nat) : option (list nat) :=
  option_map (@rev nat) (broadcast_rev (rev s1) (rev s2)).

(** A shape is extended to rank [n] with leading dimensions of extent 1. *)
Definition pad_shape (n : nat) (s : list nat) : list nat :=
  repeat 1%nat (n - length s) ++ s.

(** The entries of an array of shape [s_in] seen with shape [s_out]: a
    dimension of extent 1 is repeated. *)
Fixpoint broadcast_to {A : Type} (s_in s_out : list nat) (d : list A)
  : list A :=
  match s_in, s_out with
  | n :: s_in', m :: s_out' =>
      let parts := map (broadcast_to s_in' s_out') (chunks (size s_in') n d) in
      if (n =? m)%nat then concat parts
      else concat (repeat (concat parts) m)
  | _, _ => d
  end.

(** An elementwise binary operation with broadcasting ([*], [+], [/] of
    numpy arrays and of TensorFlow tensors). *)
Definition broadcast2 {A B C : Type} (f : A -> B -> C)
  (a : tensor A) (b : tensor B) : result (tensor C) :=
  match broadcast_shapes (shape a) (shape b) with
  | Some s =>
      Ok (mkT s (zipWith f
                   (broadcast_to (pad_shape (length s) (shape a)) s (data a))
                   (broadcast_to (pad_shape (length s) (shape b)) s (data b))))
  | None => Raise BroadcastError
  end.

Definition np_mul : ndarray -> ndarray -> result ndarray := broadcast2 Rmult.
Definition tf_mul : ndarray -> ndarray -> result ndarray := broadcast2 Rmult.
Definition tf_add : ndarray -> ndarray -> result ndarray := broadcast2 Rplus.
Definition tf_div : ndarray -> ndarray -> result (tensor num) :=
  broadcast2 fdiv.

(** [np.sum(a)]: the sum over every axis. *)
Definition np_sum (a : ndarray) : R := sum_list (data a).

(** ** The hard Dice score *)

(** [[
def calc_dice(y_true, y_pred, smooth=1.):
    numerator = 2.0 * np.sum(y_true * y_pred) + smooth
    denominator = np.sum(y_true) + np.sum(y_pred) + smooth
    coef = numerator / denominator
    return coef
]] *)
Definition calc_dice (y_true y_pred : ndarray) (smooth : R) : result num :=
  prod <- np_mul y_true y_pred ;;
  let numerator := 2 * np_sum prod + smooth in
  let denominator := np_sum y_true + np_sum y_pred + smooth in
  let coef := fdiv numerator denominator in
  Ok coef.

(** The evaluation driver: in [predict],
    [dice_score = calc_dice(pred_mask, msk)], the prediction first and the
    smoothing left at its default. *)
Definition predict_dice_score (pred_mask msk : ndarray) : result num :=
  calc_dice pred_mask msk 1.

(** ** Reductions of TensorFlow *)

(** An axis may count from the end ([-1] is the last one). *)
Definition normalize_axis (rank : nat) (a : Z) : option nat :=
  if ((0 <=? a) && (a <? Z.of_nat rank))%Z then Some (Z.to_nat a)
  else if ((- Z.of_nat rank <=? a) && (a <? 0))%Z
       then Some (Z.to_nat (a + Z.of_nat rank))
       else None.

Fixpoint normalize_all (rank : nat) (axis : list Z) : option (list nat) :=
  match axis with
  | [] => Some []
  | a :: rest =>
      match normalize_axis rank a, normalize_all rank rest with
      | Some k, Some ks => Some (k :: ks)
      | _, _ => None
      end
  end.

Definition mem (i : nat) (ax : list nat) : bool := existsb (Nat.eqb i) ax.

Fixpoint distinct (ax : list nat) : bool :=
  match ax with
  | [] => true
  | k :: ks => negb (mem k ks) && distinct ks
  end.

Definition normalize_axes (rank : nat) (axis : list Z) : option (list nat) :=
  match normalize_all rank axis with
  | Some ax => if distinct ax then Some ax else None
  | None => None
  end.

(** Shape left when the axes [ax] are summed away; [i] is the index of the
    first dimension of [s] in the whole array. *)
Fixpoint reduce_shape (ax : list nat) (i : nat) (s : list nat) : list nat :=
  match s with
  | [] => []
  | n :: s' =>
      if mem i ax then reduce_shape ax (S i) s'
      else n :: reduce_shape ax (S i) s'
  end.

(** Entry-by-entry sum of blocks of [m] entries. *)
Definition vsum (m : nat) (parts : list (list R)) : list R :=
  fold_right (zipWith Rplus) (repeat 0 m) parts.

Fixpoint reduce_data (ax : list nat) (i : nat) (s : list nat) (d : list R)
  : list R :=
  match s with
  | [] => d
  | n :: s' =>
      let parts := map (reduce_data ax (S i) s') (chunks (size s') n d) in
      if mem i ax then vsum (size (reduce_shape ax (S i) s')) parts
      else concat parts
  end.

(** [tf.reduce_sum(t, axis=axis)] with a tuple of axes. *)
Definition tf_reduce_sum (t : ndarray) (axis : list Z) : result ndarray :=
  match normalize_axes (length (shape t)) axis with
  | Some ax =>
      Ok (mkT (reduce_shape ax 0 (shape t))
              (reduce_data ax 0 (shape t) (data t)))
  | None => Raise AxisError
  end.

(** Mean of a list of finite values: nan for the empty list. *)
Definition mean (l : list R) : num := fdiv (sum_list l) (INR (length l)).

Definition nsum (l : list num) : num := fold_right nadd (Fin 0) l.

Definition nmean (l : list num) : num :=
  ndiv (nsum l) (Fin (INR (length l))).

(** [tf.reduce_mean(t)]: the mean over every axis. *)
Definition tf_reduce_mean (t : ndarray) : num := mean (data t).

Definition tf_reduce_mean_num (t : tensor num) : num := nmean (data t).

(** ** The soft Dice score and the losses *)

(** [[
def dice_coef(y_true, y_pred, axis=(1, 2), smooth=1.):
    intersection = tf.reduce_sum(y_true * y_pred, axis=axis)
    union = tf.reduce_sum(y_true + y_pred, axis=axis)
    numerator = tf.constant(2.) * intersection + smooth
    denominator = union + smooth
    coef = numerator / denominator
    return tf.reduce_mean(coef)
]] *)
Definition dice_coef (y_true y_pred : ndarray) (axis : list Z) (smooth : R)
  : result num :=
  tp <- tf_mul y_true y_pred ;;
  intersection <- tf_reduce_sum tp axis ;;
  ts <- tf_add y_true y_pred ;;
  union <- tf_reduce_sum ts axis ;;
  let numerator := tmap (fun x => 2 * x + smooth) intersection in
  let denominator := tmap (fun x => x + smooth) union in
  coef <- tf_div numerator denominator ;;
  Ok (tf_reduce_mean_num coef).

(** [[
def dice_coef_loss(target, prediction, axis=(1, 2), smooth=1.):
    intersection = tf.reduce_sum(prediction * target, axis=axis)
    p = tf.reduce_sum(prediction, axis=axis)
    t = tf.reduce_sum(target, axis=axis)
    numerator = tf.reduce_mean(intersection + smooth)
    denominator = tf.reduce_mean(t + p + smooth)
    dice_loss = -tf.log(2.*numerator) + tf.log(denominator)
    return dice_loss
]] *)
Definition dice_coef_loss (target prediction : ndarray) (axis : list Z)
  (smooth : R) : result num :=
  pt <- tf_mul prediction target ;;
  intersection <- tf_reduce_sum pt axis ;;
  p <- tf_reduce_sum prediction axis ;;
  t <- tf_reduce_sum target axis ;;
  let numerator := tf_reduce_mean (tmap (fun x => x + smooth) intersection) in
  tp <- tf_add t p ;;
  let denominator := tf_reduce_mean (tmap (fun x => x + smooth) tp) in
  let dice_loss :=
    nadd (nneg (tf_log (nmul (Fin 2) numerator))) (tf_log denominator) in
  Ok dice_loss.

Section Combined.

(** [K.losses.binary_crossentropy] belongs to Keras, not to this repository:
    the combined loss is defined over any function in its place.  It returns
    one value for each position of the leading axes. *)
Variable binary_crossentropy : ndarray -> ndarray -> result (tensor num).

(** [[
def combined_dice_ce_loss(y_true, y_pred, axis=(1, 2), smooth=1., weight=0.9):
    return weight*dice_coef_loss(y_true, y_pred, axis, smooth) + \
        (1-weight)*K.losses.binary_crossentropy(y_true, y_pred)
]]
    The scalar first term is broadcast over the entries of the second. *)
Definition combined_dice_ce_loss (y_true y_pred : ndarray) (axis : list Z)
  (smooth weight : R) : result (tensor num) :=
  d <- dice_coef_loss y_true y_pred axis smooth ;;
  ce <- binary_crossentropy y_true y_pred ;;
  Ok (tmap (fun c => nadd (nmul (Fin weight) d) (nmul (Fin (1 - weight)) c))
           ce).

End Combined.

(** A reference instance for [binary_crossentropy], after the Keras
    documentation: the prediction is clipped to [[epsilon, 1 - epsilon]],
    the cross-entropy is taken entry by entry and averaged over the last
    axis. *)
Definition epsilon : R := / 10000000.

Definition clip (lo hi x : R) : R :=
  if Rlt_dec x lo then lo else if Rlt_dec hi x then hi else x.

Definition bce_entry (t p : R) : R :=
  let q := clip epsilon (1 - epsilon) p in
  - (t * ln q + (1 - t) * ln (1 - q)).

Definition mean_last_axis (t : ndarray) : result (tensor num) :=
  match rev (shape t) with
  | [] => Raise AxisError
  | c :: lead =>
      Ok (mkT (rev lead) (map mean (chunks c (size lead) (data t))))
  end.

Definition keras_binary_crossentropy (y_true y_pred : ndarray)
  : result (tensor num) :=
  e <- broadcast2 bce_entry y_true y_pred ;;
  mean_last_axis e.

(** ** The operations as the specification words them *)

(** The samples of a batch: the blocks of the data along the first axis. *)
Definition samples (t : ndarray) : list (list R) :=
  match shape t with
  | [] => []
  | b :: rest => chunks (size rest) b (data t)
  end.

Definition sample_pairs (ground_truth prediction : ndarray)
  : list (list R * list R) :=
  combine (samples ground_truth) (samples prediction).

(** The reduction axes leave one number for each sample: they are valid for
    the shape, the batch axis is not among them, and the dimensions they
    leave besides it have extent 1. *)
Definition per_sample_axes (axis : list Z) (s : list nat) : bool :=
  match normalize_axes (length s) axis, s with
  | Some ax, _ :: rest =>
      negb (mem 0 ax) && (size (reduce_shape ax 1 rest) =? 1)%nat
  | _, _ => false
  end.

(** score = (2 sum(gt . pred) + smoothing) / (sum gt + sum pred + smoothing),
    sums over every entry. *)
Definition hard_overlap_score (ground_truth prediction : ndarray)
  (smoothing : R) : num :=
  fdiv (2 * sum_list (zipWith Rmult (data ground_truth) (data prediction))
        + smoothing)
       (sum_list (data ground_truth) + sum_list (data prediction)
        + smoothing).

(** For each sample, (2 intersection + smoothing) / (union_sum + smoothing). *)
Definition per_sample_scores (ground_truth prediction : ndarray)
  (smoothing : R) : list num :=
  map (fun gp =>
         let intersection := sum_list (zipWith Rmult (fst gp) (snd gp)) in
         let union_sum := sum_list (zipWith Rplus (fst gp) (snd gp)) in
         fdiv (2 * intersection + smoothing) (union_sum + smoothing))
      (sample_pairs ground_truth prediction).

Definition soft_overlap_score (ground_truth prediction : ndarray)
  (smoothing : R) : num :=
  nmean (per_sample_scores ground_truth prediction smoothing).

(** loss = - log (2 (intersection + smoothing))
           + log (t_total + p_total + smoothing), on batch means. *)
Definition overlap_loss (ground_truth prediction : ndarray) (smoothing : R)
  : num :=
  let intersection :=
    mean (map (fun gp => sum_list (zipWith Rmult (fst gp) (snd gp)))
              (sample_pairs ground_truth prediction)) in
  let p_total := mean (map sum_list (samples prediction)) in
  let t_total := mean (map sum_list (samples ground_truth)) in
  nadd (nneg (tf_log (nmul (Fin 2) (nadd intersection (Fin smoothing)))))
       (tf_log (nadd (nadd t_total p_total) (Fin smoothing))).

(** The quotient of the two arguments of the logarithms of [dice_coef_loss]:
    the Dice ratio of the batch means. *)
Definition batch_dice (target prediction : ndarray) (axis : list Z)
  (smooth : R) : R :=
  let n := INR (size (match normalize_axes (length (shape target)) axis with
                      | Some ax => reduce_shape ax 0 (shape target)
                      | None => []
                      end)) in
  2 * (sum_list (zipWith Rmult (data prediction) (data target)) / n + smooth)
  / (sum_list (data target) / n + sum_list (data prediction) / n + smooth).

(** A batch built from its samples. *)
Definition batch_of (rest : list nat) (ss : list (list R)) : ndarray :=
  mkT (length ss :: rest) (concat ss).

(** ** Predicates on entries and batches *)

(** A ground-truth label, and a predicted probability. *)
Definition binary (g : R) : Prop := g = 0 \/ g = 1.
Definition probability (p : R) : Prop := 0 <= p <= 1.

Definition is_finite (x : num) : Prop := exists r, x = Fin r.

(** The axes are valid for the shape and the reduction leaves an entry. *)
Definition nonempty_reduction (axis : list Z) (s : list nat) : bool :=
  match normalize_axes (length s) axis with
  | Some ax => negb (size (reduce_shape ax 0 s) =? 0)%nat
  | None => false
  end.

(** Two arrays of one shape with entries that are not negative, reduced
    along valid axes to at least one entry. *)
Definition nonneg_batch (axis : list Z) (target prediction : ndarray) : Prop :=
  wf target /\ wf prediction /\ shape target = shape prediction /\
  Forall (Rle 0) (data target) /\ Forall (Rle 0) (data prediction) /\
  nonempty_reduction axis (shape target) = true.

(** ** Concrete arrays *)

(** A 4x4 mask with a 2x2 foreground square, and the empty 4x4 mask. *)
Definition square_mask : ndarray :=
  mkT [4; 4]%nat [0; 0; 0; 0;  0; 1; 1; 0;  0; 1; 1; 0;  0; 0; 0; 0].

Definition empty_mask : ndarray :=
  mkT [4; 4]%nat [0; 0; 0; 0;  0; 0; 0; 0;  0; 0; 0; 0;  0; 0; 0; 0].

(** Shapes (1,) and (2,): different, and broadcast together. *)
Definition one_entry : ndarray := mkT [1]%nat [1].
Definition two_entries : ndarray := mkT [2]%nat [1; 1].

(** Shapes (2,) and (3,): not broadcast together. *)
Definition three_entries : ndarray := mkT [3]%nat [1; 1; 1].

(** A batch of two 2x2 one-channel samples: the first has intersection 2 and
    union sum 4 with itself, the second is empty. *)
Definition batch2 : ndarray :=
  mkT [2; 2; 2; 1]%nat [1; 1; 0; 0;  0; 0; 0; 0].

(** Batches of one 2x2 one-channel sample. *)
Definition gt_a : ndarray := mkT [1; 2; 2; 1]%nat [1; 1; 0; 0].
Definition pred_a : ndarray := mkT [1; 2; 2; 1]%nat [1; 0; 1; 0].
Definition gt_b : ndarray := mkT [1; 2; 2; 1]%nat [0; 0; 0; 0].
Definition pred_b : ndarray := mkT [1; 2; 2; 1]%nat [1; 0; 0; 0].

Definition zero_pixel : ndarray := mkT [1; 1; 1; 1]%nat [0].
Definition one_pixel : ndarray := mkT [1; 1; 1; 1]%nat [1].
Definition minus_one_pixel : ndarray := mkT [1; 1; 1; 1]%nat [-1].

(** ** The training loop of the ONNX branch *)

(** A bound of a Python slice on a sequence of [n] items: a negative bound
    counts from the end, and the result is brought back into [[0, n]]. *)
Definition slice_bound (n : nat) (i : Z) : nat :=
  let j := if (i <? 0)%Z then (i + Z.of_nat n)%Z else i in
  Z.to_nat (Z.min (Z.max j 0) (Z.of_nat n)).

(** [a[lo:hi]] along the first axis of an array seen as the list of its
    items. *)
Definition py_slice {A : Type} (a : list A) (lo hi : Z) : list A :=
  let start := slice_bound (length a) lo in
  let stop := slice_bound (length a) hi in
  firstn (stop - start) (skipn start a).

(** The slice the training notebooks take of a data set at iteration [i]:
    [[
for i in range(0,30):
    model.train_on_batch(imgs_train[i*args.batch_size:args.batch_size*(i+1)-1],
                         msks_train[i*args.batch_size:args.batch_size*(i+1)-1])
]] *)
Definition train_batch {A : Type} (train : list A) (batch_size i : Z)
  : list A :=
  py_slice train (i * batch_size) (batch_size * (i + 1) - 1).

(** ** Real-valued readings of the formulas *)

(** The arithmetic mean of a list of reals that is not empty. *)
Definition batch_mean (l : list R) : R := sum_list l / INR (length l).

(** (2 intersection + smoothing) / (union_sum + smoothing) of one sample. *)
Definition sample_score (smoothing : R) (gp : list R * list R) : R :=
  (2 * sum_list (zipWith Rmult (fst gp) (snd gp)) + smoothing)
  / (sum_list (zipWith Rplus (fst gp) (snd gp)) + smoothing).

(** The sum over each sample of ground truth times prediction. *)
Definition sample_intersections (ground_truth prediction : ndarray)
  : list R :=
  map (fun gp => sum_list (zipWith Rmult (fst gp) (snd gp)))
      (sample_pairs ground_truth prediction).

(** ** More concrete arrays *)

(** One 1x1 sample with two channels. *)
Definition two_channel_ones : ndarray := mkT [1; 1; 1; 2]%nat [1; 1].
Definition two_channel_gt : ndarray := mkT [1; 1; 1; 2]%nat [1; 0].
Definition two_channel_zero : ndarray := mkT [1; 1; 1; 2]%nat [0; 0].

(** A prediction for the two samples of [batch2]. *)
Definition batch2_pred : ndarray :=
  mkT [2; 2; 2; 1]%nat [1; 0; 1; 0;  1; 0; 0; 0].

(** ** [calc_dice] in binary64 *)

(** [np.sum] of a float64 array with fewer than eight entries: the entries
    are added from left to right. *)
Definition f64_sum (l : list float) : float :=
  fold_left PrimFloat.add l 0%float.

(** [calc_dice] on the entries of two float64 arrays of one shape, each
    operation rounded as IEEE binary64 does. *)
Definition calc_dice_f64 (y_true y_pred : list float) (smooth : float)
  : float :=
  let numerator :=
    PrimFloat.add
      (PrimFloat.mul 2%float (f64_sum (zipWith PrimFloat.mul y_true y_pred)))
      smooth in
  let denominator :=
    PrimFloat.add (PrimFloat.add (f64_sum y_true) (f64_sum y_pred)) smooth in
  let coef := PrimFloat.div numerator denominator in
  coef.

(** * Properties *)

(** Solves the side conditions of [nonneg_batch] on concrete batches. *)
Ltac nonneg_entries :=
  repeat split; try reflexivity;
  repeat (constructor; [lra|]); try constructor.

(** Solves [Forall] goals on the entries of a concrete mask. *)
Ltac entries :=
  repeat (constructor;
          [first [ left; reflexivity | right; reflexivity
                 | unfold probability; lra ] | ]);
  try constructor.

(** ** Lists, blocks and sums *)

Lemma chunks_length {A : Type} (k n : nat) (d : list A) :
  length (chunks k n d) = n.
Proof.
  revert d; induction n as [|n IH]; intros d; simpl; [reflexivity|].
  now rewrite IH.
Qed.

Lemma concat_chunks {A : Type} (k n : nat) (d : list A) :
  length d = (n * k)%nat -> concat (chunks k n d) = d.
Proof.
  revert d; induction n as [|n IH]; intros d Hd; simpl in *.
  - symmetry; now apply length_zero_iff_nil.
  - rewrite IH; [apply firstn_skipn|].
    rewrite length_skipn; lia.
Qed.

Lemma chunks_all_length {A : Type} (k n : nat) (d : list A) :
  length d = (n * k)%nat -> Forall (fun c => length c = k) (chunks k n d).
Proof.
  revert d; induction n as [|n IH]; intros d Hd; simpl in *; constructor.
  - rewrite length_firstn; lia.
  - apply IH; rewrite length_skipn; lia.
Qed.

Lemma zipWith_length {A B C : Type} (f : A -> B -> C) l m :
  length l = length m -> length (zipWith f l m) = length l.
Proof.
  revert m; induction l as [|a l IH]; intros [|b m] H; simpl in *;
    try discriminate; auto.
Qed.

Lemma zipWith_firstn {A B C : Type} (f : A -> B -> C) k l m :
  firstn k (zipWith f l m) = zipWith f (firstn k l) (firstn k m).
Proof.
  revert l m; induction k as [|k IH]; intros [|a l] [|b m]; simpl; auto.
  now rewrite IH.
Qed.

Lemma zipWith_skipn {A B C : Type} (f : A -> B -> C) k l m :
  skipn k (zipWith f l m) = zipWith f (skipn k l) (skipn k m).
Proof.
  revert l m; induction k as [|k IH]; intros [|a l] [|b m]; simpl; auto.
  - now destruct (skipn k l).
Qed.

Lemma zipWith_chunks {A B C : Type} (f : A -> B -> C) k n l m :
  chunks k n (zipWith f l m) =
  map (fun gp => zipWith f (fst gp) (snd gp))
      (combine (chunks k n l) (chunks k n m)).
Proof.
  revert l m; induction n as [|n IH]; intros l m; simpl; [reflexivity|].
  now rewrite zipWith_firstn, zipWith_skipn, IH.
Qed.

Lemma zipWith_comm {A C : Type} (f : A -> A -> C) l m :
  (forall a b, f a b = f b a) -> zipWith f l m = zipWith f m l.
Proof.
  intros Hf; revert m; induction l as [|a l IH]; intros [|b m]; simpl; auto.
  now rewrite IH, Hf.
Qed.

Lemma sum_list_app l m : sum_list (l ++ m) = sum_list l + sum_list m.
Proof. induction l as [|a l IH]; simpl; [lra|rewrite IH; lra]. Qed.

Lemma sum_list_concat ll : sum_list (concat ll) = sum_list (map sum_list ll).
Proof.
  induction ll as [|l ll IH]; simpl; [reflexivity|].
  now rewrite sum_list_app, IH.
Qed.

Lemma sum_list_zipWith_plus l m :
  length l = length m ->
  sum_list (zipWith Rplus l m) = sum_list l + sum_list m.
Proof.
  revert m; induction l as [|a l IH]; intros [|b m] H; simpl in *;
    try discriminate; [lra|].
  rewrite IH by lia; lra.
Qed.

Lemma sum_list_repeat_0 m : sum_list (repeat 0 m) = 0.
Proof. induction m as [|m IH]; simpl; [reflexivity|rewrite IH; lra]. Qed.

Lemma sum_list_map_plus (c : R) l :
  sum_list (map (fun x => x + c) l) = sum_list l + INR (length l) * c.
Proof.
  induction l as [|a l IH]; [simpl; lra|].
  change (length (a :: l)) with (S (length l)); rewrite S_INR.
  simpl; rewrite IH; lra.
Qed.

Lemma sum_list_chunks k n d :
  length d = (n * k)%nat -> sum_list (map sum_list (chunks k n d)) = sum_list d.
Proof.
  intros H; rewrite <- sum_list_concat; now rewrite concat_chunks.
Qed.

(** ** Broadcasting of equal shapes *)

Lemma broadcast_dim_same a : broadcast_dim a a = Some a.
Proof. unfold broadcast_dim; now rewrite Nat.eqb_refl. Qed.

Lemma broadcast_rev_same s : broadcast_rev s s = Some s.
Proof.
  induction s as [|a s IH]; simpl; [reflexivity|].
  now rewrite broadcast_dim_same, IH.
Qed.

Lemma broadcast_shapes_same s : broadcast_shapes s s = Some s.
Proof.
  unfold broadcast_shapes; rewrite broadcast_rev_same; simpl.
  now rewrite rev_involutive.
Qed.

Lemma pad_shape_same s : pad_shape (length s) s = s.
Proof. unfold pad_shape; now rewrite Nat.sub_diag. Qed.

Lemma broadcast_to_same {A : Type} s (d : list A) :
  length d = size s -> broadcast_to s s d = d.
Proof.
  revert d; induction s as [|n s IH]; intros d Hd; simpl; [reflexivity|].
  rewrite Nat.eqb_refl.
  rewrite <- (concat_chunks (size s) n d) at 2 by exact Hd.
  f_equal.
  rewrite <- (map_id (chunks (size s) n d)) at 2.
  apply map_ext_in; intros c Hc; apply IH.
  pose proof (chunks_all_length (size s) n d Hd) as Hall.
  rewrite Forall_forall in Hall; now apply Hall.
Qed.

Lemma broadcast2_same {A B C : Type} (f : A -> B -> C) a b :
  wf a -> wf b -> shape a = shape b ->
  broadcast2 f a b = Ok (mkT (shape a) (zipWith f (data a) (data b))).
Proof.
  unfold wf, broadcast2; intros Ha Hb Hs.
  rewrite <- Hs, broadcast_shapes_same, pad_shape_same.
  rewrite !broadcast_to_same; congruence.
Qed.

(** ** Reductions *)

Lemma vsum_spec m parts :
  Forall (fun p => length p = m) parts ->
  length (vsum m parts) = m /\
  sum_list (vsum m parts) = sum_list (map sum_list parts).
Proof.
  unfold vsum; induction 1 as [|p parts Hp _ [IHl IHs]]; simpl.
  - now rewrite repeat_length, sum_list_repeat_0.
  - split.
    + rewrite zipWith_length; congruence.
    + rewrite sum_list_zipWith_plus by congruence. now rewrite IHs.
Qed.

Lemma concat_length_const {A : Type} m (parts : list (list A)) :
  Forall (fun p => length p = m) parts ->
  length (concat parts) = (length parts * m)%nat.
Proof.
  induction 1 as [|p parts Hp _ IH]; simpl; [reflexivity|].
  rewrite length_app, IH, Hp; reflexivity.
Qed.

(** A reduction gives as many entries as the reduced shape has, and keeps
    the sum of all entries. *)
Lemma reduce_data_spec ax s : forall i d,
  length d = size s ->
  length (reduce_data ax i s d) = size (reduce_shape ax i s) /\
  sum_list (reduce_data ax i s d) = sum_list d.
Proof.
  induction s as [|n s IH]; intros i d Hd; simpl in *; [now split|].
  set (m := size (reduce_shape ax (S i) s)).
  set (parts := map (reduce_data ax (S i) s) (chunks (size s) n d)).
  pose proof (chunks_all_length (size s) n d Hd) as Hall.
  assert (Hlen : Forall (fun p => length p = m) parts).
  { unfold parts; rewrite Forall_map.
    eapply Forall_impl; [|exact Hall].
    intros c Hc; now apply IH. }
  assert (Hsum : sum_list (map sum_list parts) = sum_list d).
  { rewrite <- (sum_list_chunks (size s) n d Hd).
    unfold parts; rewrite map_map; f_equal.
    apply map_ext_in; intros c Hc.
    rewrite Forall_forall in Hall; now apply IH, Hall. }
  destruct (mem i ax); simpl.
  - destruct (vsum_spec m parts Hlen) as [Hl Hs]; split;
      [exact Hl | now rewrite Hs].
  - split.
    + rewrite (concat_length_const m) by exact Hlen.
      unfold parts; now rewrite length_map, chunks_length.
    + now rewrite sum_list_concat.
Qed.

Lemma singleton_sum l : length l = 1%nat -> l = [sum_list l].
Proof.
  destruct l as [|a [|b l]]; simpl; try discriminate.
  intros _; f_equal; lra.
Qed.

Lemma concat_map_singleton {A B : Type} (f : A -> B) l :
  concat (map (fun a => [f a]) l) = map f l.
Proof. induction l as [|a l IH]; simpl; congruence. Qed.

(** When the axes leave one number for each sample, the reduction is the
    list of the sums of the samples. *)
Lemma reduce_data_per_sample ax b rest d :
  mem 0 ax = false ->
  size (reduce_shape ax 1 rest) = 1%nat ->
  length d = size (b :: rest) ->
  reduce_shape ax 0 (b :: rest) = b :: reduce_shape ax 1 rest /\
  reduce_data ax 0 (b :: rest) d = map sum_list (chunks (size rest) b d).
Proof.
  intros Hm H1 Hd; simpl in *; rewrite Hm; split; [reflexivity|].
  rewrite <- (concat_map_singleton sum_list); f_equal.
  apply map_ext_in; intros c Hc.
  pose proof (chunks_all_length (size rest) b d Hd) as Hall.
  rewrite Forall_forall in Hall.
  destruct (reduce_data_spec ax rest 1 c (Hall c Hc)) as [Hl Hs].
  rewrite <- Hs; apply singleton_sum; congruence.
Qed.

Lemma tf_reduce_sum_ok (t : ndarray) axis ax :
  normalize_axes (length (shape t)) axis = Some ax ->
  tf_reduce_sum t axis =
  Ok (mkT (reduce_shape ax 0 (shape t)) (reduce_data ax 0 (shape t) (data t))).
Proof. unfold tf_reduce_sum; now intros ->. Qed.

(** ** [calc_dice] *)

Lemma calc_dice_same_shape y_true y_pred smooth :
  wf y_true -> wf y_pred -> shape y_true = shape y_pred ->
  calc_dice y_true y_pred smooth =
  Ok (hard_overlap_score y_true y_pred smooth).
Proof.
  intros Ht Hp Hs; unfold calc_dice, np_mul.
  rewrite (broadcast2_same Rmult) by assumption.
  reflexivity.
Qed.

Lemma fdiv_nonzero x y : y <> 0 -> fdiv x y = Fin (x / y).
Proof. unfold fdiv; intros H; now destruct (Req_dec_T y 0). Qed.

Lemma ln_quotient x y : 0 < x -> 0 < y -> ln (x / y) = ln x - ln y.
Proof.
  intros Hx Hy; unfold Rdiv.
  assert (Hi : 0 < / y) by now apply Rinv_0_lt_compat.
  rewrite ln_mult, ln_Rinv by assumption; lra.
Qed.

Lemma tf_log_pos x : 0 < x -> tf_log (Fin x) = Fin (ln x).
Proof. simpl; intros H; destruct (Rlt_dec 0 x); [reflexivity|contradiction]. Qed.

Lemma tf_log_nonpos x : x <= 0 -> tf_log (Fin x) = NonFinite.
Proof. simpl; intros H; destruct (Rlt_dec 0 x); [lra|reflexivity]. Qed.

(** [np.sum] adds the sums of the samples, however many the batch holds. *)
Lemma np_sum_over_samples (t : ndarray) b rest :
  wf t -> shape t = b :: rest ->
  np_sum t = sum_list (map sum_list (samples t)).
Proof.
  unfold wf, np_sum, samples; intros Hw Hs; rewrite Hs in *.
  symmetry; now apply sum_list_chunks.
Qed.

(** C1. On arrays of one shape, [calc_dice] returns
    (2 sum(gt . pred) + s) / (sum gt + sum pred + s), the product taken entry
    by entry and each sum over all the entries of the array, for every
    smoothing [s]; the quotient is the real one whenever the denominator is
    not zero (and inf or nan, as the formula itself, when it is). *)
Theorem calc_dice_formula (ground_truth prediction : ndarray) (s : R) :
  wf ground_truth -> wf prediction ->
  shape ground_truth = shape prediction ->
  let inter := sum_list (zipWith Rmult (data ground_truth) (data prediction)) in
  let total := sum_list (data ground_truth) + sum_list (data prediction) in
  calc_dice ground_truth prediction s = Ok (fdiv (2 * inter + s) (total + s))
  /\ (total + s <> 0 ->
      calc_dice ground_truth prediction s
      = Ok (Fin ((2 * inter + s) / (total + s)))).
Proof.
  intros Ht Hp Hs inter total.
  rewrite calc_dice_same_shape by assumption.
  split; [reflexivity|].
  intros Hden; unfold hard_overlap_score; fold inter; fold total.
  now rewrite fdiv_nonzero.
Qed.

(** The two scenarios of the 4x4 mask: identical prediction, score 1; empty
    prediction, score 1/5. *)
Lemma calc_dice_formula_witness :
  calc_dice square_mask square_mask 1 = Ok (Fin 1) /\
  calc_dice square_mask empty_mask 1 = Ok (Fin (1 / 5)).
Proof.
  split.
  - destruct (calc_dice_formula square_mask square_mask 1
                eq_refl eq_refl eq_refl) as [_ H].
    rewrite H; simpl; [do 2 f_equal; field | lra].
  - destruct (calc_dice_formula square_mask empty_mask 1
                eq_refl eq_refl eq_refl) as [_ H].
    rewrite H; simpl; [do 2 f_equal; field | lra].
Defined.

(** ** Symmetry *)

Lemma broadcast_dim_comm a b : broadcast_dim a b = broadcast_dim b a.
Proof.
  unfold broadcast_dim.
  destruct (Nat.eqb_spec a b), (Nat.eqb_spec b a),
    (Nat.eqb_spec a 1), (Nat.eqb_spec b 1); congruence.
Qed.

Lemma broadcast_rev_comm s1 : forall s2,
  broadcast_rev s1 s2 = broadcast_rev s2 s1.
Proof.
  induction s1 as [|a s1 IH]; intros [|b s2]; simpl; try reflexivity.
  now rewrite broadcast_dim_comm, IH.
Qed.

Lemma broadcast_shapes_comm s1 s2 :
  broadcast_shapes s1 s2 = broadcast_shapes s2 s1.
Proof. unfold broadcast_shapes; now rewrite broadcast_rev_comm. Qed.

Lemma broadcast2_comm {A C : Type} (f : A -> A -> C) a b :
  (forall x y, f x y = f y x) -> broadcast2 f a b = broadcast2 f b a.
Proof.
  intros Hf; unfold broadcast2.
  rewrite (broadcast_shapes_comm (shape a) (shape b)).
  destruct (broadcast_shapes (shape b) (shape a)); [|reflexivity].
  now rewrite (zipWith_comm f _ _ Hf).
Qed.

(** C7. [calc_dice] gives the same result when its two arrays are exchanged
    (for arrays of one shape in particular, and for any two arrays), so the
    call of the evaluation driver, prediction first, returns what the call
    with the ground truth first returns. *)
Theorem calc_dice_symmetric :
  (forall (A B : ndarray) (smooth : R),
      calc_dice A B smooth = calc_dice B A smooth) /\
  (forall pred_mask msk : ndarray,
      predict_dice_score pred_mask msk = calc_dice msk pred_mask 1).
Proof.
  assert (H : forall A B smooth, calc_dice A B smooth = calc_dice B A smooth).
  { intros A B smooth; unfold calc_dice, np_mul.
    rewrite (broadcast2_comm Rmult A B Rmult_comm).
    destruct (broadcast2 Rmult B A); simpl; [|reflexivity].
    now rewrite (Rplus_comm (np_sum A) (np_sum B)). }
  split; [exact H|].
  intros pred_mask msk; unfold predict_dice_score; apply H.
Qed.

(** ** Range of the hard score *)

Lemma overlap_bounds l : forall m,
  length l = length m -> Forall binary l -> Forall probability m ->
  let I := sum_list (zipWith Rmult l m) in
  0 <= I /\ 2 * I <= sum_list l + sum_list m /\
  0 <= sum_list l /\ 0 <= sum_list m /\
  (2 * I = sum_list l + sum_list m -> l = m).
Proof.
  induction l as [|a l IH]; intros [|b m] Hlen Hl Hm; simpl in *;
    try discriminate.
  - repeat split; try lra; auto.
  - inversion Hl as [|? ? Ha Hl']; inversion Hm as [|? ? Hb Hm']; subst.
    destruct (IH m (eq_add_S _ _ Hlen) Hl' Hm') as (H0 & H2 & HT & HP & Heq).
    unfold probability in Hb.
    destruct Ha as [-> | ->]; repeat split; try lra;
      intros E; (assert (b0 : 2 * sum_list (zipWith Rmult l m)
                               = sum_list l + sum_list m) by lra);
      rewrite (Heq b0); f_equal; lra.
Qed.

Lemma binary_zero_or_some l :
  Forall binary l -> Forall (fun g => g = 0) l \/ Exists (fun g => g = 1) l.
Proof.
  induction 1 as [|a l Ha _ IH]; [left; constructor|].
  destruct Ha as [-> | ->]; [|right; now constructor].
  destruct IH as [IH | IH]; [left | right]; now constructor.
Qed.

(** In exact arithmetic the score of valid masks is in (0, 1], and 1 only
    on equal masks. *)
Lemma calc_dice_range_exact (ground_truth prediction : ndarray) (s : R) :
  wf ground_truth -> wf prediction ->
  shape ground_truth = shape prediction ->
  Forall binary (data ground_truth) ->
  Forall probability (data prediction) ->
  0 < s ->
  exists v : R,
    calc_dice ground_truth prediction s = Ok (Fin v) /\
    0 < v <= 1 /\
    (v = 1 ->
     (Forall (fun g => g = 0) (data ground_truth) /\
      Forall (fun p => p = 0) (data prediction)) \/
     (data ground_truth = data prediction /\
      Exists (fun g => g = 1) (data ground_truth))).
Proof.
  intros Ht Hp Hs Hb Hpr Hpos.
  assert (Hlen : length (data ground_truth) = length (data prediction)).
  { unfold wf in *; congruence. }
  destruct (overlap_bounds _ _ Hlen Hb Hpr) as (H0 & H2 & HT & HP & Heq).
  rewrite calc_dice_same_shape by assumption.
  unfold hard_overlap_score.
  set (I := sum_list (zipWith Rmult (data ground_truth) (data prediction)))
    in *.
  set (T := sum_list (data ground_truth)) in *.
  set (P := sum_list (data prediction)) in *.
  assert (Hden : 0 < T + P + s) by lra.
  rewrite fdiv_nonzero by lra.
  exists ((2 * I + s) / (T + P + s)); split; [reflexivity|].
  assert (Hq : (2 * I + s) / (T + P + s) * (T + P + s) = 2 * I + s)
    by (field; lra).
  split; [split|].
  - apply Rdiv_lt_0_compat; lra.
  - apply (Rmult_le_reg_r (T + P + s)); [exact Hden|]. rewrite Hq; lra.
  - intros E; rewrite E in Hq.
    assert (Hagree : data ground_truth = data prediction) by (apply Heq; lra).
    destruct (binary_zero_or_some _ Hb) as [Hz | Hsome].
    + left; split; [exact Hz | now rewrite <- Hagree].
    + right; now split.
Qed.

(** The claim C8 fails in binary64.  With ground truth 1, prediction
    1 - 2^-53 (a probability other than 1) and smoothing 1, numerator and
    denominator both round to 3 and the score is exactly 1 on masks that
    differ; with ground truth (1, 1), prediction (0, 0) and the positive
    smoothing 2^-1074 the score is 0, outside (0, 1]. *)
Lemma calc_dice_f64_rounds_to_one :
  PrimFloat.ltb 0x1.fffffffffffffp-1%float 1%float = true /\
  PrimFloat.leb 0%float 0x1.fffffffffffffp-1%float = true /\
  calc_dice_f64 [1%float] [0x1.fffffffffffffp-1%float] 1%float = 1%float /\
  PrimFloat.ltb 0%float 0x1p-1074%float = true /\
  calc_dice_f64 [1%float; 1%float] [0%float; 0%float] 0x1p-1074%float
  = 0%float.
Proof. vm_compute; repeat split. Qed.

(** C8, amended.  With a ground truth of zeros and ones, a prediction in
    [[0, 1]] and a positive smoothing, the quotient [calc_dice] computes is,
    in exact arithmetic, a value in (0, 1] that is 1 only if both masks are
    all zero or the masks are equal entry by entry with a foreground entry;
    the binary64 value the code returns is that quotient rounded, so it can
    be exactly 1 on masks that differ by less than the rounding and exactly
    0 for a smoothing that is small enough. *)
Theorem calc_dice_range :
  (forall (ground_truth prediction : ndarray) (s : R),
      wf ground_truth -> wf prediction ->
      shape ground_truth = shape prediction ->
      Forall binary (data ground_truth) ->
      Forall probability (data prediction) ->
      0 < s ->
      exists v : R,
        calc_dice ground_truth prediction s = Ok (Fin v) /\
        0 < v <= 1 /\
        (v = 1 ->
         (Forall (fun g => g = 0) (data ground_truth) /\
          Forall (fun p => p = 0) (data prediction)) \/
         (data ground_truth = data prediction /\
          Exists (fun g => g = 1) (data ground_truth)))) /\
  (exists p : float,
      PrimFloat.leb 0%float p = true /\ PrimFloat.ltb p 1%float = true /\
      calc_dice_f64 [1%float] [p] 1%float = 1%float) /\
  (exists s : float,
      PrimFloat.ltb 0%float s = true /\
      calc_dice_f64 [1%float; 1%float] [0%float; 0%float] s = 0%float).
Proof.
  split; [exact calc_dice_range_exact|].
  split.
  - exists 0x1.fffffffffffffp-1%float; vm_compute; repeat split.
  - exists 0x1p-1074%float; vm_compute; repeat split.
Qed.

Lemma calc_dice_range_witness :
  exists v : R,
    calc_dice square_mask square_mask 1 = Ok (Fin v) /\
    0 < v <= 1 /\
    (v = 1 ->
     (Forall (fun g => g = 0) (data square_mask) /\
      Forall (fun p => p = 0) (data square_mask)) \/
     (data square_mask = data square_mask /\
      Exists (fun g => g = 1) (data square_mask))).
Proof.
  apply (proj1 calc_dice_range square_mask square_mask 1);
    try reflexivity; simpl; try lra; entries.
Defined.

(** ** [dice_coef_loss] *)

Lemma mean_map_plus (c : R) l :
  mean (map (fun x => x + c) l)
  = fdiv (sum_list l + INR (length l) * c) (INR (length l)).
Proof. unfold mean; now rewrite sum_list_map_plus, length_map. Qed.

Lemma wf_reduce (t : ndarray) ax :
  wf t ->
  wf (mkT (reduce_shape ax 0 (shape t)) (reduce_data ax 0 (shape t) (data t))).
Proof. unfold wf; simpl; intros H; now apply reduce_data_spec. Qed.

(** The loss is a function of the three sums over all entries and of the
    number [n] of entries the reduction leaves. *)
Lemma dice_coef_loss_totals target prediction axis smooth ax :
  wf target -> wf prediction -> shape target = shape prediction ->
  normalize_axes (length (shape target)) axis = Some ax ->
  let n := INR (size (reduce_shape ax 0 (shape target))) in
  dice_coef_loss target prediction axis smooth =
  Ok (nadd
        (nneg (tf_log (nmul (Fin 2)
           (fdiv (sum_list (zipWith Rmult (data prediction) (data target))
                  + n * smooth) n))))
        (tf_log
           (fdiv (sum_list (data target) + sum_list (data prediction)
                  + n * smooth) n))).
Proof.
  intros Ht Hp Hs Hax n; unfold dice_coef_loss, tf_mul, tf_add.
  rewrite (broadcast2_same Rmult prediction target) by congruence.
  simpl bind.
  rewrite (tf_reduce_sum_ok _ axis ax) by (simpl; congruence).
  rewrite (tf_reduce_sum_ok prediction axis ax) by congruence.
  rewrite (tf_reduce_sum_ok target axis ax) by congruence.
  simpl bind.
  assert (Hpt : length (zipWith Rmult (data prediction) (data target))
                = size (shape prediction)).
  { rewrite zipWith_length; unfold wf in *; congruence. }
  destruct (reduce_data_spec ax (shape prediction) 0%nat _ Hpt) as [Hl1 Hs1].
  destruct (reduce_data_spec ax (shape target) 0%nat _ Ht) as [Hl2 Hs2].
  destruct (reduce_data_spec ax (shape prediction) 0%nat _ Hp) as [Hl3 Hs3].
  rewrite broadcast2_same;
    [ | apply wf_reduce, Ht | apply wf_reduce, Hp | simpl; congruence ].
  simpl bind; unfold tf_reduce_mean, tmap; simpl data.
  rewrite !mean_map_plus.
  rewrite zipWith_length by (rewrite Hl2, Hl3; congruence).
  rewrite sum_list_zipWith_plus by (rewrite Hl2, Hl3; congruence).
  rewrite Hl1, Hl2, Hs1, Hs2, Hs3, <- Hs.
  reflexivity.
Qed.

Lemma normalize_axes_none_loss target prediction axis smooth :
  wf target -> wf prediction -> shape target = shape prediction ->
  normalize_axes (length (shape target)) axis = None ->
  dice_coef_loss target prediction axis smooth = Raise AxisError.
Proof.
  intros Ht Hp Hs Hax; unfold dice_coef_loss, tf_mul.
  rewrite (broadcast2_same Rmult prediction target) by congruence.
  simpl bind; unfold tf_reduce_sum at 1; simpl shape.
  now rewrite <- Hs, Hax.
Qed.

Lemma mean_add_const l c :
  nadd (mean l) (Fin c)
  = fdiv (sum_list l + INR (length l) * c) (INR (length l)).
Proof.
  unfold mean, fdiv; destruct (Req_dec_T (INR (length l)) 0); simpl;
    [reflexivity|].
  f_equal; field; assumption.
Qed.

Lemma mean_add2_const a b c :
  length a = length b ->
  nadd (nadd (mean a) (mean b)) (Fin c)
  = fdiv (sum_list a + sum_list b + INR (length a) * c) (INR (length a)).
Proof.
  intros H; unfold mean, fdiv; rewrite <- H.
  destruct (Req_dec_T (INR (length a)) 0); simpl; [reflexivity|].
  f_equal; field; assumption.
Qed.

Lemma per_sample_axes_inv axis s :
  per_sample_axes axis s = true ->
  exists ax b rest,
    s = b :: rest /\ normalize_axes (length s) axis = Some ax /\
    mem 0 ax = false /\ size (reduce_shape ax 1 rest) = 1%nat.
Proof.
  unfold per_sample_axes.
  destruct (normalize_axes (length s) axis) as [ax|]; [|discriminate].
  destruct s as [|b rest]; [discriminate|].
  rewrite andb_true_iff, negb_true_iff, Nat.eqb_eq; intros [H0 H1].
  now exists ax, b, rest.
Qed.

Lemma sample_pairs_length gt pred b rest :
  shape gt = b :: rest -> shape pred = b :: rest ->
  length (sample_pairs gt pred) = b.
Proof.
  unfold sample_pairs, samples; intros -> ->.
  rewrite length_combine, !chunks_length; lia.
Qed.

Lemma sample_pairs_sum (f : R -> R -> R) gt pred b rest :
  wf gt -> wf pred -> shape gt = b :: rest -> shape pred = b :: rest ->
  sum_list (map (fun gp => sum_list (zipWith f (fst gp) (snd gp)))
                (sample_pairs gt pred))
  = sum_list (zipWith f (data gt) (data pred)).
Proof.
  unfold wf, sample_pairs, samples; intros Hg Hp Sg Sp.
  rewrite Sg, Sp in *.
  rewrite <- (sum_list_chunks (size rest) b (zipWith f (data gt) (data pred))).
  - now rewrite zipWith_chunks, map_map.
  - rewrite zipWith_length; simpl in *; congruence.
Qed.

Lemma samples_length t b rest :
  shape t = b :: rest -> length (samples t) = b.
Proof. unfold samples; intros ->; apply chunks_length. Qed.

Lemma samples_sum t b rest :
  wf t -> shape t = b :: rest ->
  sum_list (map sum_list (samples t)) = sum_list (data t).
Proof.
  unfold wf, samples; intros Hw Hs; rewrite Hs in *.
  now apply sum_list_chunks.
Qed.

(** With axes that leave one number for each sample the code computes the
    loss as the specification words it. *)
Lemma dice_coef_loss_per_sample (ground_truth prediction : ndarray)
  (axis : list Z) (s : R) :
  wf ground_truth -> wf prediction ->
  shape ground_truth = shape prediction ->
  per_sample_axes axis (shape ground_truth) = true ->
  dice_coef_loss ground_truth prediction axis s
  = Ok (overlap_loss ground_truth prediction s).
Proof.
  intros Hg Hp Hs Hax.
  destruct (per_sample_axes_inv _ _ Hax) as (ax & b & rest & Sg & Hn & H0 & H1).
  assert (Sp : shape prediction = b :: rest) by congruence.
  rewrite (dice_coef_loss_totals _ _ axis s ax Hg Hp Hs Hn).
  assert (Hb : size (reduce_shape ax 0 (shape ground_truth)) = b).
  { rewrite Sg; simpl; rewrite H0; simpl; rewrite H1; lia. }
  rewrite Hb; unfold overlap_loss.
  rewrite mean_add_const, mean_add2_const
    by (rewrite !length_map;
        now rewrite (samples_length _ b rest Sg), (samples_length _ b rest Sp)).
  rewrite !length_map, (sample_pairs_length _ _ b rest Sg Sp).
  rewrite (samples_length _ b rest Sg).
  rewrite (sample_pairs_sum Rmult _ _ b rest Hg Hp Sg Sp).
  rewrite (samples_sum _ b rest Hg Sg), (samples_sum _ b rest Hp Sp).
  now rewrite (zipWith_comm Rmult (data prediction) _ Rmult_comm).
Qed.

Lemma batch_mean_add_const l c :
  l <> [] -> nadd (mean l) (Fin c) = Fin (batch_mean l + c).
Proof.
  intros Hl; unfold mean, batch_mean.
  rewrite fdiv_nonzero; [reflexivity|].
  destruct l; [congruence|].
  apply not_0_INR; simpl; lia.
Qed.

Lemma mean_batch_mean l : l <> [] -> mean l = Fin (batch_mean l).
Proof.
  intros Hl; unfold mean, batch_mean.
  rewrite fdiv_nonzero; [reflexivity|].
  destruct l; [congruence|].
  apply not_0_INR; simpl; lia.
Qed.

Lemma nonempty_of_length {A : Type} (l : list A) b :
  length l = b -> b <> 0%nat -> l <> [].
Proof. intros <- H E; subst; simpl in H; lia. Qed.

(** On a batch that is not empty the two logarithms are taken of the real
    numbers 2 (I + s) and T + P + s. *)
Lemma overlap_loss_value ground_truth prediction s b rest :
  shape ground_truth = b :: rest -> shape prediction = b :: rest ->
  b <> 0%nat ->
  overlap_loss ground_truth prediction s
  = nadd (nneg (tf_log (Fin (2 * (batch_mean
                   (sample_intersections ground_truth prediction) + s)))))
         (tf_log (Fin (batch_mean (map sum_list (samples ground_truth))
                       + batch_mean (map sum_list (samples prediction))
                       + s))).
Proof.
  intros Sg Sp Hb; unfold overlap_loss.
  fold (sample_intersections ground_truth prediction).
  rewrite batch_mean_add_const.
  - rewrite !mean_batch_mean; [reflexivity | |].
    + apply (nonempty_of_length _ b); [|exact Hb].
      now rewrite length_map, (samples_length _ b rest).
    + apply (nonempty_of_length _ b); [|exact Hb].
      now rewrite length_map, (samples_length _ b rest).
  - apply (nonempty_of_length _ b); [|exact Hb].
    unfold sample_intersections.
    now rewrite length_map, (sample_pairs_length _ _ b rest).
Qed.

(** The claim C2 fails when the axes leave more than one number for a
    sample: on one 1x1 sample with two channels of ones, axis (1, 2) and
    smoothing 1, the code takes its means over the two channel entries and
    returns - ln 4 + ln 3, while the formula on the sums over the sample
    gives - ln 6 + ln 5. *)
Lemma loss_two_channels_not_per_sample :
  dice_coef_loss two_channel_ones two_channel_ones [1; 2]%Z 1
  = Ok (Fin (- ln 4 + ln 3)) /\
  overlap_loss two_channel_ones two_channel_ones 1 = Fin (- ln 6 + ln 5) /\
  - ln 4 + ln 3 <> - ln 6 + ln 5.
Proof.
  assert (E : forall a b c d, a = c -> b = d -> 0 < c -> 0 < d ->
              nadd (nneg (tf_log (Fin a))) (tf_log (Fin b))
              = Fin (- ln c + ln d)).
  { intros a b c d -> -> Hc Hd; now rewrite !tf_log_pos by assumption. }
  split; [|split].
  - rewrite (dice_coef_loss_totals _ _ _ _ [1; 2]%nat) by reflexivity.
    simpl; rewrite !fdiv_nonzero by lra; simpl nmul.
    f_equal; apply E; try lra; field.
  - rewrite (overlap_loss_value _ _ _ 1%nat [1; 1; 2]%nat)
      by (reflexivity || discriminate).
    apply E; try lra; unfold batch_mean; simpl; field.
  - assert (H : ln (3 / 4) < ln (5 / 6)) by (apply ln_increasing; lra).
    rewrite !ln_quotient in H by lra; lra.
Qed.

(** C2, amended.  On arrays of one shape, with reduction axes that leave one
    number for each sample, [dice_coef_loss] returns
    - log (2 (I + s)) + log (T + P + s), where I, P and T are the means over
    the batch of the sums over each sample of ground truth times prediction,
    of the prediction and of the ground truth: on a batch that is not empty
    this is the real number - ln (2 (I + s)) + ln (T + P + s) when both
    arguments are positive, and inf or nan when one is not. *)
Theorem dice_coef_loss_formula (ground_truth prediction : ndarray)
  (axis : list Z) (s : R) :
  wf ground_truth -> wf prediction ->
  shape ground_truth = shape prediction ->
  per_sample_axes axis (shape ground_truth) = true ->
  let I := batch_mean (sample_intersections ground_truth prediction) in
  let P := batch_mean (map sum_list (samples prediction)) in
  let T := batch_mean (map sum_list (samples ground_truth)) in
  dice_coef_loss ground_truth prediction axis s
  = Ok (overlap_loss ground_truth prediction s) /\
  (hd 0%nat (shape ground_truth) <> 0%nat ->
   0 < 2 * (I + s) -> 0 < T + P + s ->
   dice_coef_loss ground_truth prediction axis s
   = Ok (Fin (- ln (2 * (I + s)) + ln (T + P + s)))) /\
  (hd 0%nat (shape ground_truth) <> 0%nat ->
   2 * (I + s) <= 0 \/ T + P + s <= 0 ->
   dice_coef_loss ground_truth prediction axis s = Ok NonFinite).
Proof.
  intros Hg Hp Hs Hax I P T.
  pose proof (dice_coef_loss_per_sample _ _ axis s Hg Hp Hs Hax) as H.
  destruct (per_sample_axes_inv _ _ Hax) as (ax & b & rest & Sg & _).
  assert (Sp : shape prediction = b :: rest) by congruence.
  split; [exact H|].
  rewrite Sg; simpl hd.
  split; intros Hb.
  - intros H1 H2; rewrite H, (overlap_loss_value _ _ s b rest Sg Sp Hb).
    fold I T P; now rewrite !tf_log_pos by assumption.
  - intros H12; rewrite H, (overlap_loss_value _ _ s b rest Sg Sp Hb).
    fold I T P; destruct H12 as [H1 | H2].
    + now rewrite (tf_log_nonpos _ H1).
    + rewrite (tf_log_nonpos _ H2).
      now destruct (tf_log (Fin (2 * (I + s)))).
Qed.

Lemma dice_coef_loss_formula_witness :
  dice_coef_loss gt_a pred_a [1; 2]%Z 1
  = Ok (Fin (- ln (2 * (1 + 1)) + ln (2 + 2 + 1))).
Proof.
  destruct (dice_coef_loss_formula gt_a pred_a [1; 2]%Z 1
              eq_refl eq_refl eq_refl eq_refl) as (_ & H & _).
  rewrite H.
  - unfold batch_mean, sample_intersections; simpl.
    do 3 f_equal; [do 2 f_equal|f_equal]; field.
  - simpl; discriminate.
  - unfold batch_mean, sample_intersections; simpl; lra.
  - unfold batch_mean; simpl; lra.
Defined.

(** ** [dice_coef] *)

Lemma zipWith_map_same {A B C D : Type} (h : B -> C -> D)
  (f : A -> B) (g : A -> C) l :
  zipWith h (map f l) (map g l) = map (fun a => h (f a) (g a)) l.
Proof. induction l as [|a l IH]; simpl; congruence. Qed.

Lemma wf_tmap {A B : Type} (f : A -> B) (t : tensor A) :
  wf t -> wf (tmap f t).
Proof. unfold wf, tmap; simpl; now rewrite length_map. Qed.

Lemma dice_coef_per_sample ground_truth prediction axis s :
  wf ground_truth -> wf prediction ->
  shape ground_truth = shape prediction ->
  per_sample_axes axis (shape ground_truth) = true ->
  dice_coef ground_truth prediction axis s
  = Ok (soft_overlap_score ground_truth prediction s).
Proof.
  intros Hg Hp Hs Hax.
  destruct (per_sample_axes_inv _ _ Hax) as (ax & b & rest & Sg & Hn & H0 & H1).
  assert (Sp : shape prediction = b :: rest) by congruence.
  assert (Hlen : length (data ground_truth) = length (data prediction)).
  { unfold wf in *; congruence. }
  unfold dice_coef, tf_mul, tf_add, tf_div.
  rewrite !(broadcast2_same _ ground_truth prediction) by assumption.
  simpl bind.
  rewrite !(tf_reduce_sum_ok _ axis ax) by (simpl; congruence).
  simpl bind; simpl shape; simpl data.
  assert (Hl : forall f : R -> R -> R,
             length (zipWith f (data ground_truth) (data prediction))
             = size (b :: rest)).
  { intros f; rewrite zipWith_length by exact Hlen.
    unfold wf in Hg; congruence. }
  rewrite Sg.
  destruct (reduce_data_per_sample ax b rest _ H0 H1 (Hl Rmult)) as [-> ->].
  destruct (reduce_data_per_sample ax b rest _ H0 H1 (Hl Rplus)) as [_ ->].
  rewrite broadcast2_same; unfold wf, tmap; simpl;
    [ | rewrite !length_map, chunks_length; lia
      | rewrite !length_map, chunks_length; lia
      | reflexivity ].
  unfold tf_reduce_mean_num, soft_overlap_score, per_sample_scores; simpl.
  do 2 f_equal.
  rewrite !zipWith_chunks, !map_map.
  unfold sample_pairs, samples; rewrite Sg, Sp.
  apply zipWith_map_same.
Qed.

Lemma nsum_map_Fin l : nsum (map Fin l) = Fin (sum_list l).
Proof. induction l as [|a l IH]; simpl; [reflexivity|]. now rewrite IH. Qed.

(** When no denominator is zero, the scores of the samples are the real
    quotients [sample_score]. *)
Lemma per_sample_scores_real ground_truth prediction s :
  Forall (fun gp => sum_list (zipWith Rplus (fst gp) (snd gp)) + s <> 0)
         (sample_pairs ground_truth prediction) ->
  per_sample_scores ground_truth prediction s
  = map Fin (map (sample_score s) (sample_pairs ground_truth prediction)).
Proof.
  intros H; unfold per_sample_scores; rewrite map_map.
  apply map_ext_in; intros gp Hin.
  rewrite Forall_forall in H.
  unfold sample_score; now rewrite fdiv_nonzero by (apply H, Hin).
Qed.

(** The claim C3 fails when the axes leave more than one number for a
    sample: on one 1x1 sample with two channels, ground truth (1, 0) and
    prediction (0, 0), axis (1, 2) and smoothing 1, the code scores each
    channel, 1/2 and 1, and returns their mean 3/4, while the score of the
    sample is (2 * 0 + 1) / (1 + 1) = 1/2. *)
Lemma dice_coef_two_channels_not_per_sample :
  dice_coef two_channel_gt two_channel_zero [1; 2]%Z 1 = Ok (Fin (3 / 4)) /\
  soft_overlap_score two_channel_gt two_channel_zero 1 = Fin (1 / 2) /\
  3 / 4 <> 1 / 2.
Proof.
  split; [|split; [|lra]].
  - unfold dice_coef, tf_mul, tf_add, tf_div, tf_reduce_mean_num, nmean; simpl.
    rewrite !fdiv_nonzero by lra; simpl; rewrite fdiv_nonzero by lra.
    do 2 f_equal; field.
  - unfold soft_overlap_score, per_sample_scores, nmean; simpl.
    rewrite fdiv_nonzero by lra; simpl; rewrite fdiv_nonzero by lra.
    f_equal; field.
Qed.

(** C3, amended.  On arrays of one shape, with reduction axes that leave one
    number for each sample, [dice_coef] scores each sample of the batch on
    its own, (2 intersection + s) / (union_sum + s) with intersection the sum
    of ground truth times prediction and union_sum the sum of ground truth
    plus prediction over the sample, and returns the mean of these scores:
    their sum divided by the number of samples, a real number when the batch
    is not empty and no denominator is zero.  On the batch of two samples
    with (intersection, union_sum) = (2, 4) and (0, 0) and s = 1 both scores
    are 1 and so is the mean. *)
Theorem dice_coef_formula :
  (forall (ground_truth prediction : ndarray) (axis : list Z) (s : R),
      wf ground_truth -> wf prediction ->
      shape ground_truth = shape prediction ->
      per_sample_axes axis (shape ground_truth) = true ->
      dice_coef ground_truth prediction axis s
      = Ok (nmean (per_sample_scores ground_truth prediction s)) /\
      (hd 0%nat (shape ground_truth) <> 0%nat ->
       Forall (fun gp => sum_list (zipWith Rplus (fst gp) (snd gp)) + s <> 0)
              (sample_pairs ground_truth prediction) ->
       dice_coef ground_truth prediction axis s
       = Ok (Fin (sum_list (map (sample_score s)
                              (sample_pairs ground_truth prediction))
                  / INR (hd 0%nat (shape ground_truth)))))) /\
  per_sample_scores batch2 batch2 1 = [Fin 1; Fin 1] /\
  dice_coef batch2 batch2 [1; 2]%Z 1 = Ok (Fin 1).
Proof.
  split.
  - intros gt pred axis s Hg Hp Hs Hax.
    pose proof (dice_coef_per_sample _ _ axis s Hg Hp Hs Hax) as H.
    split; [exact H|].
    intros Hb Hden; rewrite H; unfold soft_overlap_score, nmean.
    destruct (per_sample_axes_inv _ _ Hax) as (ax & b & rest & Sg & _).
    assert (Sp : shape pred = b :: rest) by congruence.
    rewrite Sg in *; simpl hd in *.
    rewrite (per_sample_scores_real _ _ _ Hden), nsum_map_Fin.
    rewrite !length_map, (sample_pairs_length _ _ b rest Sg Sp).
    simpl; rewrite fdiv_nonzero; [reflexivity|].
    apply not_0_INR; exact Hb.
  - assert (Hs : per_sample_scores batch2 batch2 1 = [Fin 1; Fin 1]).
    { unfold per_sample_scores; simpl.
      rewrite !fdiv_nonzero by lra.
      repeat f_equal; field. }
    split; [exact Hs|].
    rewrite dice_coef_per_sample by reflexivity.
    unfold soft_overlap_score; rewrite Hs.
    unfold nmean; simpl; rewrite fdiv_nonzero by lra.
    do 2 f_equal; field.
Qed.

(** Two samples with the scores 3/5 and 1/2: the mean is 11/20. *)
Lemma dice_coef_formula_witness :
  dice_coef batch2 batch2_pred [1; 2]%Z 1 = Ok (Fin (11 / 20)).
Proof.
  destruct (proj1 dice_coef_formula batch2 batch2_pred [1; 2]%Z 1
              eq_refl eq_refl eq_refl eq_refl) as [_ H].
  rewrite H.
  - unfold sample_score; simpl; do 2 f_equal; field.
  - simpl; discriminate.
  - unfold sample_pairs, samples; simpl.
    repeat (constructor; [simpl; lra|]); constructor.
Defined.

(** ** Shapes that differ *)

Lemma broadcast2_none {A B C : Type} (f : A -> B -> C) a b :
  broadcast_shapes (shape a) (shape b) = None ->
  broadcast2 f a b = Raise BroadcastError.
Proof. unfold broadcast2; now intros ->. Qed.

Lemma broadcast2_some {A B C : Type} (f : A -> B -> C) a b :
  broadcast_shapes (shape a) (shape b) <> None ->
  exists t, broadcast2 f a b = Ok t.
Proof.
  unfold broadcast2; destruct (broadcast_shapes (shape a) (shape b));
    [eauto | congruence].
Qed.

(** The claim C4 fails: arrays of shapes (1,) and (2,) are broadcast
    together and [calc_dice] returns 5/4. *)
Lemma calc_dice_accepts_different_shapes :
  shape one_entry <> shape two_entries /\
  calc_dice one_entry two_entries 1 = Ok (Fin (5 / 4)).
Proof.
  split; [discriminate|].
  unfold calc_dice, np_sum; simpl.
  rewrite fdiv_nonzero by lra.
  do 2 f_equal; field.
Qed.

(** C4, amended. When the shapes of the two arrays cannot be broadcast
    together, each of the four scoring functions raises the broadcast error
    of its first product and returns no value; when they can, equal or not,
    [calc_dice] returns a value. *)
Theorem shape_mismatch_raises
  (binary_crossentropy : ndarray -> ndarray -> result (tensor num))
  (y_true y_pred : ndarray) (axis : list Z) (smooth weight : R) :
  (broadcast_shapes (shape y_true) (shape y_pred) = None ->
   calc_dice y_true y_pred smooth = Raise BroadcastError /\
   dice_coef y_true y_pred axis smooth = Raise BroadcastError /\
   dice_coef_loss y_true y_pred axis smooth = Raise BroadcastError /\
   combined_dice_ce_loss binary_crossentropy y_true y_pred axis smooth weight
   = Raise BroadcastError) /\
  (broadcast_shapes (shape y_true) (shape y_pred) <> None ->
   exists v, calc_dice y_true y_pred smooth = Ok v).
Proof.
  split.
  - intros H.
    assert (H' : broadcast_shapes (shape y_pred) (shape y_true) = None)
      by now rewrite broadcast_shapes_comm.
    assert (Hl : dice_coef_loss y_true y_pred axis smooth
                 = Raise BroadcastError).
    { unfold dice_coef_loss, tf_mul.
      now rewrite (broadcast2_none Rmult _ _ H'). }
    unfold calc_dice, dice_coef, combined_dice_ce_loss, np_mul, tf_mul.
    rewrite Hl, (broadcast2_none Rmult _ _ H); simpl; auto.
  - intros H; unfold calc_dice, np_mul.
    destruct (broadcast2_some Rmult _ _ H) as [t ->]; simpl; eauto.
Qed.

Lemma shape_mismatch_raises_witness :
  calc_dice two_entries three_entries 1 = Raise BroadcastError /\
  dice_coef two_entries three_entries [0]%Z 1 = Raise BroadcastError /\
  dice_coef_loss two_entries three_entries [0]%Z 1 = Raise BroadcastError /\
  combined_dice_ce_loss keras_binary_crossentropy
    two_entries three_entries [0]%Z 1 (9 / 10)
  = Raise BroadcastError.
Proof.
  apply (proj1 (shape_mismatch_raises keras_binary_crossentropy
                  two_entries three_entries [0]%Z 1 (9 / 10))).
  reflexivity.
Defined.

(** ** Smoothing that is not positive *)

Lemma dice_coef_returns y_true y_pred axis smooth ax :
  wf y_true -> wf y_pred -> shape y_true = shape y_pred ->
  normalize_axes (length (shape y_true)) axis = Some ax ->
  exists v, dice_coef y_true y_pred axis smooth = Ok v.
Proof.
  intros Ht Hp Hs Hax.
  assert (Hlen : length (data y_true) = length (data y_pred)).
  { unfold wf in *; congruence. }
  assert (Hw : forall f : R -> R -> R,
             wf (mkT (shape y_true) (zipWith f (data y_true) (data y_pred)))).
  { intros f; unfold wf; simpl; now rewrite zipWith_length. }
  unfold dice_coef, tf_mul, tf_add, tf_div.
  rewrite !(broadcast2_same _ y_true y_pred) by assumption.
  simpl bind.
  rewrite !(tf_reduce_sum_ok _ axis ax) by (simpl; congruence).
  simpl bind.
  rewrite broadcast2_same;
    [ simpl; eauto
    | apply wf_tmap, (wf_reduce _ ax (Hw Rmult))
    | apply wf_tmap, (wf_reduce _ ax (Hw Rplus))
    | reflexivity ].
Qed.

(** The claim C9 fails: with smoothing 0 [calc_dice] returns 1 on a one-pixel
    foreground mask and [dice_coef_loss] returns - ln 2 + ln 2; with
    smoothing -1 [calc_dice] returns 1 on the 4x4 mask. *)
Lemma nonpositive_smoothing_accepted :
  calc_dice one_pixel one_pixel 0 = Ok (Fin 1) /\
  dice_coef_loss one_pixel one_pixel [1; 2]%Z 0
  = Ok (Fin (- ln 2 + ln 2)) /\
  calc_dice square_mask square_mask (-1) = Ok (Fin 1).
Proof.
  split; [|split].
  - unfold calc_dice, np_sum; simpl.
    rewrite fdiv_nonzero by lra. do 2 f_equal; field.
  - rewrite (dice_coef_loss_totals _ _ _ _ [1; 2]%nat) by reflexivity.
    simpl. rewrite !fdiv_nonzero by lra. simpl.
    destruct (Rlt_dec 0 (2 * ((1 * 1 + 0 + 1 * 0) / 1))) as [_|n];
      [|exfalso; apply n; lra].
    destruct (Rlt_dec 0 ((1 + 0 + (1 + 0) + 1 * 0) / 1)) as [_|n];
      [|exfalso; apply n; lra].
    simpl; do 2 f_equal; f_equal; [f_equal|]; f_equal; field.
  - unfold calc_dice, np_sum; simpl.
    rewrite fdiv_nonzero by lra. do 2 f_equal; field.
Qed.

(** C9, amended. No scoring function checks the smoothing: for a smoothing
    that is zero or negative, as for any other, on arrays of one shape and
    with valid reduction axes each function returns a number (finite, or inf
    or nan when a denominator is zero or the argument of a logarithm is not
    positive) and raises nothing. *)
Theorem nonpositive_smoothing_not_rejected
  (binary_crossentropy : ndarray -> ndarray -> result (tensor num))
  (y_true y_pred : ndarray) (axis : list Z) (ax : list nat)
  (smooth weight : R) (ce : tensor num) :
  smooth <= 0 ->
  wf y_true -> wf y_pred -> shape y_true = shape y_pred ->
  normalize_axes (length (shape y_true)) axis = Some ax ->
  binary_crossentropy y_true y_pred = Ok ce ->
  calc_dice y_true y_pred smooth
  = Ok (hard_overlap_score y_true y_pred smooth) /\
  (exists v, dice_coef y_true y_pred axis smooth = Ok v) /\
  (exists v, dice_coef_loss y_true y_pred axis smooth = Ok v) /\
  (exists v, combined_dice_ce_loss binary_crossentropy
               y_true y_pred axis smooth weight = Ok v).
Proof.
  intros _ Ht Hp Hs Hax Hce.
  split; [now apply calc_dice_same_shape|].
  split; [now apply (dice_coef_returns _ _ _ _ ax)|].
  unfold combined_dice_ce_loss.
  rewrite (dice_coef_loss_totals _ _ axis smooth ax Ht Hp Hs Hax), Hce.
  simpl; eauto.
Qed.

Lemma keras_binary_crossentropy_pixel (t p : R) :
  keras_binary_crossentropy (mkT [1; 1; 1; 1]%nat [t]) (mkT [1; 1; 1; 1]%nat [p])
  = Ok (mkT [1; 1; 1]%nat [Fin ((bce_entry t p + 0) / 1)]).
Proof.
  unfold keras_binary_crossentropy, mean_last_axis, mean; simpl.
  now rewrite fdiv_nonzero by lra.
Qed.

Lemma nonpositive_smoothing_not_rejected_witness :
  calc_dice one_pixel one_pixel 0
  = Ok (hard_overlap_score one_pixel one_pixel 0) /\
  (exists v, dice_coef one_pixel one_pixel [1; 2]%Z 0 = Ok v) /\
  (exists v, dice_coef_loss one_pixel one_pixel [1; 2]%Z 0 = Ok v) /\
  (exists v, combined_dice_ce_loss keras_binary_crossentropy
               one_pixel one_pixel [1; 2]%Z 0 (9 / 10) = Ok v).
Proof.
  apply (nonpositive_smoothing_not_rejected keras_binary_crossentropy
           one_pixel one_pixel [1; 2]%Z [1; 2]%nat 0 (9 / 10)
           (mkT [1; 1; 1]%nat [Fin ((bce_entry 1 1 + 0) / 1)]));
    try reflexivity.
  apply keras_binary_crossentropy_pixel.
Defined.

(** ** The loss as a function of the Dice ratio of the batch means *)

Lemma sum_list_nonneg l : Forall (Rle 0) l -> 0 <= sum_list l.
Proof. induction 1 as [|a l Ha _ IH]; simpl; lra. Qed.

Lemma sum_list_mul_nonneg l : forall m,
  Forall (Rle 0) l -> Forall (Rle 0) m -> 0 <= sum_list (zipWith Rmult l m).
Proof.
  induction l as [|a l IH]; intros [|b m] Hl Hm; simpl; try lra.
  inversion Hl; inversion Hm; subst.
  assert (0 <= a * b) by now apply Rmult_le_pos.
  specialize (IH m); intuition lra.
Qed.

Lemma nonempty_reduction_inv axis s :
  nonempty_reduction axis s = true ->
  exists ax, normalize_axes (length s) axis = Some ax /\
             0 < INR (size (reduce_shape ax 0 s)).
Proof.
  unfold nonempty_reduction.
  destruct (normalize_axes (length s) axis) as [ax|]; [|discriminate].
  rewrite negb_true_iff, Nat.eqb_neq; intros H.
  exists ax; split; [reflexivity|].
  apply lt_0_INR; lia.
Qed.

(** On entries that are not negative and with a positive smoothing the loss
    is finite: it is minus the logarithm of [batch_dice], which is positive. *)
Lemma dice_coef_loss_batch_dice target prediction axis smooth :
  nonneg_batch axis target prediction -> 0 < smooth ->
  0 < batch_dice target prediction axis smooth /\
  dice_coef_loss target prediction axis smooth
  = Ok (Fin (- ln (batch_dice target prediction axis smooth))).
Proof.
  intros (Ht & Hp & Hs & Nt & Np & Hne) Hpos.
  destruct (nonempty_reduction_inv _ _ Hne) as (ax & Hax & Hn).
  rewrite (dice_coef_loss_totals _ _ axis smooth ax Ht Hp Hs Hax).
  unfold batch_dice; rewrite Hax.
  set (n := INR (size (reduce_shape ax 0 (shape target)))) in *.
  pose proof (sum_list_mul_nonneg _ _ Np Nt) as HX.
  pose proof (sum_list_nonneg _ Nt) as HT.
  pose proof (sum_list_nonneg _ Np) as HP.
  set (X := sum_list (zipWith Rmult (data prediction) (data target))) in *.
  set (T := sum_list (data target)) in *.
  set (P := sum_list (data prediction)) in *.
  assert (Hi : 0 < / n) by now apply Rinv_0_lt_compat.
  assert (HXn : 0 <= X / n) by (apply Rmult_le_pos; lra).
  assert (HTn : 0 <= T / n) by (apply Rmult_le_pos; lra).
  assert (HPn : 0 <= P / n) by (apply Rmult_le_pos; lra).
  assert (Hu : 0 < 2 * (X / n + smooth)) by lra.
  assert (Hv : 0 < T / n + P / n + smooth) by lra.
  split; [now apply Rdiv_lt_0_compat|].
  rewrite !fdiv_nonzero by lra.
  replace ((X + n * smooth) / n) with (X / n + smooth) by (field; lra).
  replace ((T + P + n * smooth) / n) with (T / n + P / n + smooth)
    by (field; lra).
  simpl nmul; rewrite !tf_log_pos by assumption.
  simpl; do 2 f_equal.
  rewrite ln_quotient by assumption; lra.
Qed.




(** ** The combined loss at the ends of the weight range *)

Lemma tmap_id {A : Type} (f : A -> A) (t : tensor A) :
  (forall a, f a = a) -> tmap f t = t.
Proof.
  intros Hf; destruct t as [s d]; unfold tmap; simpl; f_equal.
  rewrite <- (map_id d) at 2; apply map_ext; exact Hf.
Qed.

Lemma tmap_ext_in {A B : Type} (f g : A -> B) (t : tensor A) :
  Forall (fun a => f a = g a) (data t) -> tmap f t = tmap g t.
Proof.
  intros H; unfold tmap; f_equal.
  apply map_ext_in; now apply Forall_forall.
Qed.

(** Whatever the cross-entropy is, a loss that is not finite makes every
    entry of the combined loss nan, also with weight 0. *)
Lemma combined_loss_nan
  (binary_crossentropy : ndarray -> ndarray -> result (tensor num))
  y_true y_pred axis smooth weight ce :
  dice_coef_loss y_true y_pred axis smooth = Ok NonFinite ->
  binary_crossentropy y_true y_pred = Ok ce ->
  combined_dice_ce_loss binary_crossentropy y_true y_pred axis smooth weight
  = Ok (tmap (fun _ => NonFinite) ce).
Proof.
  intros Hd Hce; unfold combined_dice_ce_loss; now rewrite Hd, Hce.
Qed.

(** The claim C5 fails: on an empty one-pixel mask with smoothing 0 the loss
    is nan (- log 0 + log 0), and with weight 0 so is the combined loss,
    while the cross-entropy is finite.  The same happens with smoothing 1
    when an entry is negative: ground truth -1 against prediction 1 gives
    the loss - log 0 + log 1. *)
Lemma zero_weight_not_cross_entropy :
  (exists x, keras_binary_crossentropy zero_pixel zero_pixel
             = Ok (mkT [1; 1; 1]%nat [Fin x])) /\
  dice_coef_loss zero_pixel zero_pixel [1; 2]%Z 0 = Ok NonFinite /\
  combined_dice_ce_loss keras_binary_crossentropy
    zero_pixel zero_pixel [1; 2]%Z 0 0
  = Ok (mkT [1; 1; 1]%nat [NonFinite]) /\
  combined_dice_ce_loss keras_binary_crossentropy
    zero_pixel zero_pixel [1; 2]%Z 0 0
  <> keras_binary_crossentropy zero_pixel zero_pixel /\
  combined_dice_ce_loss keras_binary_crossentropy
    minus_one_pixel one_pixel [1; 2]%Z 1 0
  <> keras_binary_crossentropy minus_one_pixel one_pixel.
Proof.
  assert (Hl : dice_coef_loss zero_pixel zero_pixel [1; 2]%Z 0 = Ok NonFinite).
  { rewrite (dice_coef_loss_totals _ _ _ _ [1; 2]%nat) by reflexivity.
    simpl; rewrite !fdiv_nonzero by lra.
    simpl nmul; rewrite tf_log_nonpos by lra. reflexivity. }
  assert (Hm : dice_coef_loss minus_one_pixel one_pixel [1; 2]%Z 1
               = Ok NonFinite).
  { rewrite (dice_coef_loss_totals _ _ _ _ [1; 2]%nat) by reflexivity.
    simpl; rewrite !fdiv_nonzero by lra.
    simpl nmul; rewrite tf_log_nonpos by lra. reflexivity. }
  pose proof (keras_binary_crossentropy_pixel 0 0) as K0.
  pose proof (keras_binary_crossentropy_pixel (-1) 1) as K1.
  fold zero_pixel in K0; fold minus_one_pixel one_pixel in K1.
  repeat split.
  - eexists; exact K0.
  - exact Hl.
  - now rewrite (combined_loss_nan _ _ _ _ _ _ _ Hl K0).
  - rewrite (combined_loss_nan _ _ _ _ _ _ _ Hl K0), K0; discriminate.
  - rewrite (combined_loss_nan _ _ _ _ _ _ _ Hm K1), K1; discriminate.
Qed.

(** C5, amended.  With weight 1 every entry of the combined loss equals
    [dice_coef_loss] on the same arguments, the cross-entropy being finite;
    with weight 0 the combined loss is the cross-entropy on the same
    arguments whenever [dice_coef_loss] is finite there. *)
Theorem combined_loss_end_weights
  (binary_crossentropy : ndarray -> ndarray -> result (tensor num))
  (y_true y_pred : ndarray) (axis : list Z) (smooth : R) (ce : tensor num) :
  binary_crossentropy y_true y_pred = Ok ce ->
  (forall d : num,
      dice_coef_loss y_true y_pred axis smooth = Ok d ->
      Forall is_finite (data ce) ->
      combined_dice_ce_loss binary_crossentropy y_true y_pred axis smooth 1
      = Ok (tmap (fun _ => d) ce)) /\
  (forall r : R,
      dice_coef_loss y_true y_pred axis smooth = Ok (Fin r) ->
      combined_dice_ce_loss binary_crossentropy y_true y_pred axis smooth 0
      = Ok ce).
Proof.
  intros Hce; split.
  - intros d Hd Hfin; unfold combined_dice_ce_loss; rewrite Hd, Hce.
    simpl; f_equal; apply tmap_ext_in.
    eapply Forall_impl; [|exact Hfin].
    intros c [x ->]; destruct d as [r|]; simpl; [|reflexivity].
    f_equal; ring.
  - intros r Hd; unfold combined_dice_ce_loss; rewrite Hd, Hce.
    simpl; f_equal; apply tmap_id.
    intros [x|]; simpl; [|reflexivity].
    f_equal; ring.
Qed.

Lemma combined_loss_end_weights_witness :
  combined_dice_ce_loss keras_binary_crossentropy
    one_pixel one_pixel [1; 2]%Z 1 1
  = Ok (mkT [1; 1; 1]%nat
          [Fin (- ln (batch_dice one_pixel one_pixel [1; 2]%Z 1))]) /\
  combined_dice_ce_loss keras_binary_crossentropy
    one_pixel one_pixel [1; 2]%Z 1 0
  = keras_binary_crossentropy one_pixel one_pixel.
Proof.
  destruct (combined_loss_end_weights keras_binary_crossentropy
              one_pixel one_pixel [1; 2]%Z 1 _
              (keras_binary_crossentropy_pixel 1 1)) as [H1 H0].
  destruct (dice_coef_loss_batch_dice one_pixel one_pixel [1; 2]%Z 1)
    as [_ Hd]; [nonneg_entries | lra |].
  split.
  - rewrite (H1 _ Hd); [reflexivity|].
    constructor; [eexists; reflexivity | constructor].
  - rewrite (H0 _ Hd); symmetry; apply keras_binary_crossentropy_pixel.
Defined.

(** ** Order of the samples in a batch *)

Lemma zipWith_app {A B C : Type} (f : A -> B -> C) l1 l2 m1 m2 :
  length l1 = length m1 ->
  zipWith f (l1 ++ l2) (m1 ++ m2) = zipWith f l1 m1 ++ zipWith f l2 m2.
Proof.
  revert m1; induction l1 as [|a l1 IH]; intros [|b m1] H; simpl in *;
    try discriminate; [reflexivity|].
  now rewrite IH by lia.
Qed.

Lemma zipWith_concat {A B C : Type} (f : A -> B -> C)
  (ss : list (list A * list B)) :
  Forall (fun gp => length (fst gp) = length (snd gp)) ss ->
  zipWith f (concat (map fst ss)) (concat (map snd ss))
  = concat (map (fun gp => zipWith f (fst gp) (snd gp)) ss).
Proof.
  induction 1 as [|gp ss Hgp _ IH]; simpl; [reflexivity|].
  now rewrite zipWith_app, IH.
Qed.

Lemma sum_list_map_perm {A : Type} (f : A -> R) l l' :
  Permutation l l' -> sum_list (map f l) = sum_list (map f l').
Proof. induction 1; simpl; lra. Qed.

Lemma batch_of_wf rest (l : list (list R)) :
  Forall (fun c => length c = size rest) l -> wf (batch_of rest l).
Proof. unfold wf, batch_of; simpl; apply concat_length_const. Qed.

(** In exact arithmetic, reordering the samples of a batch, the same way in
    both inputs, does not change [dice_coef_loss], whatever the axes and the
    smoothing.  (The sums of the source are rounded as they are added, in an
    order this development does not model, so the statement is about the
    real-valued formulas only.) *)
Lemma dice_coef_loss_batch_permutation (rest : list nat)
  (ss ss' : list (list R * list R)) (axis : list Z) (smooth : R) :
  Forall (fun gp => length (fst gp) = size rest /\
                    length (snd gp) = size rest) ss ->
  Permutation ss ss' ->
  dice_coef_loss (batch_of rest (map fst ss)) (batch_of rest (map snd ss))
                 axis smooth
  = dice_coef_loss (batch_of rest (map fst ss')) (batch_of rest (map snd ss'))
                   axis smooth.
Proof.
  intros Hall Hperm.
  assert (Hall' := Permutation_Forall Hperm Hall).
  assert (Hw : forall l : list (list R * list R),
             Forall (fun gp => length (fst gp) = size rest /\
                               length (snd gp) = size rest) l ->
             wf (batch_of rest (map fst l)) /\ wf (batch_of rest (map snd l)) /\
             shape (batch_of rest (map fst l))
             = shape (batch_of rest (map snd l)) /\
             Forall (fun gp => length (fst gp) = length (snd gp)) l).
  { intros l Hl; repeat split.
    - apply batch_of_wf, Forall_map; eapply Forall_impl; [|exact Hl].
      now intros gp [? ?].
    - apply batch_of_wf, Forall_map; eapply Forall_impl; [|exact Hl].
      now intros gp [? ?].
    - unfold batch_of; simpl; now rewrite !length_map.
    - eapply Forall_impl; [|exact Hl]. intros gp [? ?]; congruence. }
  destruct (Hw ss Hall) as (W1 & W2 & S1 & L1).
  destruct (Hw ss' Hall') as (W1' & W2' & S1' & L1').
  assert (Hshape : shape (batch_of rest (map fst ss'))
                   = shape (batch_of rest (map fst ss))).
  { unfold batch_of; simpl.
    now rewrite !length_map, (Permutation_length Hperm). }
  destruct (normalize_axes (length (shape (batch_of rest (map fst ss)))) axis)
    as [ax|] eqn:Hax.
  - rewrite (dice_coef_loss_totals _ _ axis smooth ax W1 W2 S1 Hax).
    rewrite (dice_coef_loss_totals _ _ axis smooth ax W1' W2' S1')
      by (now rewrite Hshape).
    rewrite Hshape; unfold batch_of; simpl data.
    rewrite !(zipWith_comm Rmult (concat (map snd _)) _ Rmult_comm).
    rewrite !zipWith_concat by assumption.
    rewrite !sum_list_concat, !map_map.
    rewrite (sum_list_map_perm _ _ _ Hperm).
    rewrite (sum_list_map_perm (fun x => sum_list (fst x)) _ _ Hperm).
    rewrite (sum_list_map_perm (fun x => sum_list (snd x)) _ _ Hperm).
    reflexivity.
  - rewrite (normalize_axes_none_loss _ _ axis smooth W1 W2 S1 Hax).
    rewrite (normalize_axes_none_loss _ _ axis smooth W1' W2' S1')
      by (now rewrite Hshape).
    reflexivity.
Qed.

Lemma dice_coef_loss_batch_permutation_witness :
  dice_coef_loss
    (batch_of [2; 2; 1]%nat [[1; 1; 0; 0]; [0; 0; 0; 0]])
    (batch_of [2; 2; 1]%nat [[1; 0; 1; 0]; [1; 0; 0; 0]]) [1; 2]%Z 1
  = dice_coef_loss
      (batch_of [2; 2; 1]%nat [[0; 0; 0; 0]; [1; 1; 0; 0]])
      (batch_of [2; 2; 1]%nat [[1; 0; 0; 0]; [1; 0; 1; 0]]) [1; 2]%Z 1.
Proof.
  apply (dice_coef_loss_batch_permutation [2; 2; 1]%nat
           [([1; 1; 0; 0], [1; 0; 1; 0]); ([0; 0; 0; 0], [1; 0; 0; 0])]
           [([0; 0; 0; 0], [1; 0; 0; 0]); ([1; 1; 0; 0], [1; 0; 1; 0])]
           [1; 2]%Z 1).
  - repeat constructor.
  - apply perm_swap.
Defined.

(** * Further properties of the scoring functions *)

(** ** [calc_dice] on particular masks *)

Lemma binary_square l : Forall binary l -> zipWith Rmult l l = l.
Proof.
  induction 1 as [|a l Ha _ IH]; simpl; [reflexivity|].
  rewrite IH; f_equal; destruct Ha as [-> | ->]; lra.
Qed.

Lemma binary_nonneg l : Forall binary l -> Forall (Rle 0) l.
Proof.
  intros H; eapply Forall_impl; [|exact H].
  intros a [-> | ->]; lra.
Qed.


Lemma sum_list_zero l : Forall (fun x => x = 0) l -> sum_list l = 0.
Proof. induction 1 as [|a l Ha _ IH]; simpl; [reflexivity|]. lra. Qed.

(** X1. A mask of zeros and ones scored against itself gets exactly 1, for
    every positive smoothing: the product of the mask with itself is the
    mask, so numerator and denominator are both 2 sum(A) + s. *)
Theorem calc_dice_self_overlap (A : ndarray) (s : R) :
  wf A -> Forall binary (data A) -> 0 < s ->
  calc_dice A A s = Ok (Fin 1).
Proof.
  intros Hw Hb Hs.
  rewrite calc_dice_same_shape by auto.
  unfold hard_overlap_score; rewrite binary_square by exact Hb.
  pose proof (sum_list_nonneg _ (binary_nonneg _ Hb)) as H0.
  rewrite fdiv_nonzero by lra.
  do 2 f_equal; field; lra.
Qed.

Lemma calc_dice_self_overlap_witness :
  calc_dice square_mask square_mask (1 / 2) = Ok (Fin 1).
Proof.
  apply (calc_dice_self_overlap square_mask (1 / 2));
    [reflexivity | simpl; entries | lra].
Defined.

(** X2. When no position is foreground in both arrays (every product of
    corresponding entries is zero), the score of two arrays of one shape
    with entries that are not negative is s / (sum A + sum B + s) for a
    positive smoothing [s]: the numerator is the smoothing alone, and the
    value is between 0 and 1. *)
Theorem calc_dice_disjoint (A B : ndarray) (s : R) :
  wf A -> wf B -> shape A = shape B ->
  Forall (fun x => x = 0) (zipWith Rmult (data A) (data B)) ->
  Forall (Rle 0) (data A) -> Forall (Rle 0) (data B) -> 0 < s ->
  calc_dice A B s
  = Ok (Fin (s / (sum_list (data A) + sum_list (data B) + s))) /\
  0 <= s / (sum_list (data A) + sum_list (data B) + s) <= 1.
Proof.
  intros Ha Hb Hs Hz Na Nb Hpos.
  rewrite calc_dice_same_shape by assumption.
  unfold hard_overlap_score; rewrite (sum_list_zero _ Hz).
  pose proof (sum_list_nonneg _ Na) as HA.
  pose proof (sum_list_nonneg _ Nb) as HB.
  set (T := sum_list (data A)) in *; set (P := sum_list (data B)) in *.
  rewrite fdiv_nonzero by lra.
  split; [do 2 f_equal; field; lra|].
  assert (Hq : s / (T + P + s) * (T + P + s) = s) by (field; lra).
  split.
  - left; apply Rdiv_lt_0_compat; lra.
  - apply (Rmult_le_reg_r (T + P + s)); [lra|]. rewrite Hq; lra.
Qed.

Lemma calc_dice_disjoint_witness :
  calc_dice gt_b pred_b 1
  = Ok (Fin (1 / (sum_list (data gt_b) + sum_list (data pred_b) + 1))) /\
  0 <= 1 / (sum_list (data gt_b) + sum_list (data pred_b) + 1) <= 1.
Proof.
  apply (calc_dice_disjoint gt_b pred_b 1);
    try reflexivity; simpl; try lra;
    repeat (constructor; [lra|]); constructor.
Defined.

(** X3. On two arrays of one shape whose entries are all zero, and so also on
    two arrays without entries, [calc_dice] returns 1 for every smoothing
    other than zero and nan (0 / 0) for the smoothing zero. *)
Theorem calc_dice_all_zero (A B : ndarray) :
  wf A -> wf B -> shape A = shape B ->
  Forall (fun x => x = 0) (data A) -> Forall (fun x => x = 0) (data B) ->
  (forall s : R, s <> 0 -> calc_dice A B s = Ok (Fin 1)) /\
  calc_dice A B 0 = Ok NonFinite.
Proof.
  intros Ha Hb Hs Za Zb.
  assert (Hz : sum_list (zipWith Rmult (data A) (data B)) = 0).
  { apply sum_list_zero.
    clear Ha Hb Hs; revert Zb; generalize (data B).
    induction Za as [|a l Ha _ IH]; intros [|b m] Zb; simpl;
      try constructor.
    - subst; lra.
    - inversion Zb; subst; now apply IH. }
  split.
  - intros s Hne; rewrite calc_dice_same_shape by assumption.
    unfold hard_overlap_score.
    rewrite Hz, (sum_list_zero _ Za), (sum_list_zero _ Zb).
    rewrite fdiv_nonzero by lra.
    do 2 f_equal; field; lra.
  - rewrite calc_dice_same_shape by assumption.
    unfold hard_overlap_score.
    rewrite Hz, (sum_list_zero _ Za), (sum_list_zero _ Zb).
    unfold fdiv; destruct (Req_dec_T (0 + 0 + 0) 0) as [_|n];
      [reflexivity | exfalso; apply n; lra].
Qed.

Lemma calc_dice_all_zero_witness :
  (forall s : R, s <> 0 -> calc_dice empty_mask empty_mask s = Ok (Fin 1)) /\
  calc_dice empty_mask empty_mask 0 = Ok NonFinite.
Proof.
  apply (calc_dice_all_zero empty_mask empty_mask);
    try reflexivity; simpl; repeat constructor.
Defined.

(** ** Symmetry of the soft score and of the loss *)

Lemma tf_reduce_sum_raises (t : ndarray) axis e :
  tf_reduce_sum t axis = Raise e -> e = AxisError.
Proof.
  unfold tf_reduce_sum.
  destruct (normalize_axes (length (shape t)) axis); congruence.
Qed.

Lemma dice_coef_comm (a b : ndarray) (axis : list Z) (smooth : R) :
  dice_coef a b axis smooth = dice_coef b a axis smooth.
Proof.
  unfold dice_coef, tf_mul, tf_add.
  now rewrite (broadcast2_comm Rmult a b Rmult_comm),
    (broadcast2_comm Rplus a b Rplus_comm).
Qed.

(** X5. [dice_coef] and [dice_coef_loss] do not depend on which array is
    passed as ground truth and which as prediction, for any two arrays, any
    axes and any smoothing, errors included. *)
Theorem soft_dice_symmetric (a b : ndarray) (axis : list Z) (smooth : R) :
  dice_coef a b axis smooth = dice_coef b a axis smooth /\
  dice_coef_loss a b axis smooth = dice_coef_loss b a axis smooth.
Proof.
  split; [apply dice_coef_comm|].
  - unfold dice_coef_loss, tf_mul, tf_add.
    rewrite (broadcast2_comm Rmult b a Rmult_comm).
    destruct (broadcast2 Rmult a b) as [pt|e]; simpl; [|reflexivity].
    destruct (tf_reduce_sum pt axis) as [i|e]; simpl; [|reflexivity].
    destruct (tf_reduce_sum a axis) as [ra|ea] eqn:Ea;
      destruct (tf_reduce_sum b axis) as [rb|eb] eqn:Eb; simpl;
      try (apply tf_reduce_sum_raises in Ea);
      try (apply tf_reduce_sum_raises in Eb); subst; try reflexivity.
    now rewrite (broadcast2_comm Rplus ra rb Rplus_comm).
Qed.

(** ** Range of the soft score *)









(** X7. On an empty batch (first dimension 0) of arrays of one shape, with
    axes that leave one number for each sample, both [dice_coef] and
    [dice_coef_loss] return nan: the mean over no sample is 0 / 0. *)
Theorem empty_batch_nan (y_true y_pred : ndarray) (axis : list Z) (s : R) :
  wf y_true -> wf y_pred -> shape y_true = shape y_pred ->
  per_sample_axes axis (shape y_true) = true ->
  hd 0%nat (shape y_true) = 0%nat ->
  dice_coef y_true y_pred axis s = Ok NonFinite /\
  dice_coef_loss y_true y_pred axis s = Ok NonFinite.
Proof.
  intros Ht Hp Hs Hax H0.
  destruct (per_sample_axes_inv _ _ Hax) as (ax & b & rest & St & Hn & Hm & H1).
  rewrite St in H0; simpl in H0; subst b.
  assert (Sp : shape y_pred = 0%nat :: rest) by congruence.
  split.
  - rewrite dice_coef_per_sample by assumption.
    unfold soft_overlap_score, per_sample_scores, sample_pairs, samples.
    rewrite St, Sp; simpl.
    unfold nmean; simpl; unfold fdiv.
    destruct (Req_dec_T 0 0); [reflexivity | contradiction].
  - rewrite (dice_coef_loss_totals _ _ axis s ax Ht Hp Hs Hn).
    rewrite St; simpl; rewrite Hm; simpl.
    unfold fdiv; destruct (Req_dec_T 0 0); [reflexivity | contradiction].
Qed.

Lemma empty_batch_nan_witness :
  dice_coef (mkT [0; 2; 2; 1]%nat []) (mkT [0; 2; 2; 1]%nat []) [1; 2]%Z 1
  = Ok NonFinite /\
  dice_coef_loss (mkT [0; 2; 2; 1]%nat []) (mkT [0; 2; 2; 1]%nat []) [1; 2]%Z 1
  = Ok NonFinite.
Proof.
  apply (empty_batch_nan (mkT [0; 2; 2; 1]%nat []) (mkT [0; 2; 2; 1]%nat [])
           [1; 2]%Z 1); reflexivity.
Defined.

(** ** One image: the score of [predict] and the training metric *)





(** ** Bounds of the loss *)





(** ** The choice of the axes *)

(** X11. Any two choices of axes that leave one number for each sample, such
    as (1, 2), (1, 2, 3) and (-3, -2) on arrays of shape (B, H, W, 1), give
    the same [dice_coef] and the same [dice_coef_loss]. *)
Theorem per_sample_axes_agree (a b : ndarray) (axis1 axis2 : list Z)
  (smooth : R) :
  wf a -> wf b -> shape a = shape b ->
  per_sample_axes axis1 (shape a) = true ->
  per_sample_axes axis2 (shape a) = true ->
  dice_coef a b axis1 smooth = dice_coef a b axis2 smooth /\
  dice_coef_loss a b axis1 smooth = dice_coef_loss a b axis2 smooth.
Proof.
  intros Ha Hb Hs H1 H2; split.
  - now rewrite !dice_coef_per_sample by assumption.
  - destruct (per_sample_axes_inv _ _ H1) as (ax1 & n & rest & S1 & N1 & M1 & E1).
    destruct (per_sample_axes_inv _ _ H2) as (ax2 & n' & rest' & S2 & N2 & M2 & E2).
    rewrite (dice_coef_loss_totals _ _ axis1 smooth ax1 Ha Hb Hs N1).
    rewrite (dice_coef_loss_totals _ _ axis2 smooth ax2 Ha Hb Hs N2).
    rewrite S1 in S2; injection S2 as <- <-.
    rewrite S1; simpl; now rewrite M1, M2; simpl; rewrite E1, E2.
Qed.

Lemma per_sample_axes_agree_witness :
  dice_coef gt_a pred_a [1; 2]%Z 1 = dice_coef gt_a pred_a [-3; -2; 3]%Z 1 /\
  dice_coef_loss gt_a pred_a [1; 2]%Z 1
  = dice_coef_loss gt_a pred_a [-3; -2; 3]%Z 1.
Proof.
  apply (per_sample_axes_agree gt_a pred_a [1; 2]%Z [-3; -2; 3]%Z 1);
    reflexivity.
Defined.

(** X12. On arrays of one shape, a tuple of axes with an axis out of range
    for their rank, or with an axis given twice, makes [dice_coef],
    [dice_coef_loss] and [combined_dice_ce_loss] raise the axis error of the
    first reduction; the cross-entropy is not reached. *)
Theorem invalid_axes_raise
  (binary_crossentropy : ndarray -> ndarray -> result (tensor num))
  (y_true y_pred : ndarray) (axis : list Z) (smooth weight : R) :
  wf y_true -> wf y_pred -> shape y_true = shape y_pred ->
  normalize_axes (length (shape y_true)) axis = None ->
  dice_coef y_true y_pred axis smooth = Raise AxisError /\
  dice_coef_loss y_true y_pred axis smooth = Raise AxisError /\
  combined_dice_ce_loss binary_crossentropy y_true y_pred axis smooth weight
  = Raise AxisError.
Proof.
  intros Ht Hp Hs Hax.
  pose proof (normalize_axes_none_loss _ _ axis smooth Ht Hp Hs Hax) as Hl.
  split; [|split; [exact Hl|]].
  - unfold dice_coef, tf_mul.
    rewrite (broadcast2_same Rmult y_true y_pred) by assumption.
    simpl bind; unfold tf_reduce_sum at 1; simpl shape.
    now rewrite Hax.
  - unfold combined_dice_ce_loss; now rewrite Hl.
Qed.

Lemma invalid_axes_raise_witness :
  dice_coef gt_a pred_a [1; 4]%Z 1 = Raise AxisError /\
  dice_coef_loss gt_a pred_a [1; 4]%Z 1 = Raise AxisError /\
  combined_dice_ce_loss keras_binary_crossentropy gt_a pred_a [1; 4]%Z 1
    (9 / 10)
  = Raise AxisError.
Proof.
  apply (invalid_axes_raise keras_binary_crossentropy gt_a pred_a
           [1; 4]%Z 1 (9 / 10)); reflexivity.
Defined.

(** ** The combined loss between its two terms *)



(** ** The batches of the ONNX training loop *)

Lemma slice_bound_nonneg n i :
  (0 <= i)%Z -> slice_bound n i = Nat.min (Z.to_nat i) n.
Proof.
  intros Hi; unfold slice_bound.
  destruct (Z.ltb_spec i 0); lia.
Qed.

Lemma train_batch_length_le {A : Type} (train : list A) (batch_size i : Z) :
  (1 <= batch_size)%Z -> (0 <= i)%Z ->
  (length (train_batch train batch_size i) <= Z.to_nat (batch_size - 1))%nat.
Proof.
  intros Hb Hi.
  assert (Hlo : (0 <= i * batch_size)%Z) by nia.
  assert (Hhi : (0 <= batch_size * (i + 1) - 1)%Z) by nia.
  unfold train_batch, py_slice.
  rewrite (slice_bound_nonneg _ _ Hlo), (slice_bound_nonneg _ _ Hhi).
  rewrite length_firstn; nia.
Qed.

(** X14. With a batch size of at least 1, the slice of iteration [i] never
    holds more than batch_size - 1 items; it is the run of batch_size - 1
    items from position i * batch_size on whenever the data set reaches
    that far; and every item it holds sits at a position of the data set
    whose remainder modulo batch_size is not batch_size - 1: the last item
    of each stride of batch_size is in no batch. *)
Theorem train_batch_drops_last {A : Type} (train : list A)
  (batch_size i : Z) :
  (1 <= batch_size)%Z -> (0 <= i)%Z ->
  (length (train_batch train batch_size i) <= Z.to_nat (batch_size - 1))%nat /\
  ((batch_size * (i + 1) - 1 <= Z.of_nat (length train))%Z ->
   train_batch train batch_size i
   = firstn (Z.to_nat (batch_size - 1))
            (skipn (Z.to_nat (i * batch_size)) train) /\
   length (train_batch train batch_size i) = Z.to_nat (batch_size - 1)) /\
  (forall (j : nat) (x : A),
      nth_error (train_batch train batch_size i) j = Some x ->
      nth_error train (Z.to_nat (i * batch_size) + j) = Some x /\
      ((i * batch_size + Z.of_nat j) mod batch_size <> batch_size - 1)%Z).
Proof.
  intros Hb Hi.
  assert (Hlo : (0 <= i * batch_size)%Z) by nia.
  assert (Hhi : (0 <= batch_size * (i + 1) - 1)%Z) by nia.
  unfold train_batch, py_slice.
  rewrite (slice_bound_nonneg _ _ Hlo), (slice_bound_nonneg _ _ Hhi).
  set (n := length train).
  set (lo := Z.to_nat (i * batch_size)).
  set (hi := Z.to_nat (batch_size * (i + 1) - 1)).
  assert (Hd : (hi = lo + Z.to_nat (batch_size - 1))%nat) by (unfold hi, lo; nia).
  split; [|split].
  - rewrite length_firstn; lia.
  - intros Hn.
    assert (Hhn : (hi <= n)%nat) by (unfold hi, n; lia).
    rewrite (Nat.min_l hi n), (Nat.min_l lo n) by lia.
    replace (hi - lo)%nat with (Z.to_nat (batch_size - 1)) by lia.
    split; [reflexivity|].
    rewrite length_firstn, length_skipn; fold n; lia.
  - intros j x Hj.
    rewrite nth_error_firstn in Hj.
    destruct (Nat.ltb_spec j (Nat.min hi n - Nat.min lo n)) as [Hlt|];
      [|discriminate].
    rewrite nth_error_skipn in Hj.
    assert (Hlon : (lo <= n)%nat) by lia.
    rewrite (Nat.min_l lo n) in Hj, Hlt by exact Hlon.
    split; [exact Hj|].
    assert (Hjb : (Z.of_nat j < batch_size - 1)%Z) by lia.
    rewrite Z.add_comm, Z_mod_plus_full, Z.mod_small; lia.
Qed.

Lemma train_batch_drops_last_witness :
  (length (train_batch [10; 11; 12; 13; 14; 15; 16]%Z 3 1) <= Z.to_nat (3 - 1))%nat /\
  ((3 * (1 + 1) - 1 <= Z.of_nat (length [10; 11; 12; 13; 14; 15; 16]%Z))%Z ->
   train_batch [10; 11; 12; 13; 14; 15; 16]%Z 3 1
   = firstn (Z.to_nat (3 - 1))
            (skipn (Z.to_nat (1 * 3)) [10; 11; 12; 13; 14; 15; 16]%Z) /\
   length (train_batch [10; 11; 12; 13; 14; 15; 16]%Z 3 1) = Z.to_nat (3 - 1)) /\
  (forall (j : nat) (x : Z),
      nth_error (train_batch [10; 11; 12; 13; 14; 15; 16]%Z 3 1) j = Some x ->
      nth_error [10; 11; 12; 13; 14; 15; 16]%Z (Z.to_nat (1 * 3) + j) = Some x /\
      ((1 * 3 + Z.of_nat j) mod 3 <> 3 - 1)%Z).
Proof.
  apply (train_batch_drops_last [10; 11; 12; 13; 14; 15; 16]%Z 3 1); lia.
Defined.

(** X15. Two edges of the batch size.  With batch size 1 every slice of the
    loop is empty; with batch size 0 every slice is the whole data set
    without its last item, whatever the iteration. *)
Theorem train_batch_small_sizes {A : Type} (train : list A) :
  (forall i : Z, (0 <= i)%Z -> train_batch train 1 i = []) /\
  (forall i : Z, train_batch train 0 i = removelast train).
Proof.
  split.
  - intros i Hi; apply length_zero_iff_nil.
    pose proof (train_batch_length_le train 1 i (Z.le_refl 1) Hi) as H.
    simpl in H; lia.
  - intros i; unfold train_batch, py_slice.
    rewrite Z.mul_0_r, Z.mul_0_l; simpl Z.sub.
    replace (slice_bound (length train) 0) with 0%nat
      by (unfold slice_bound; destruct (Z.ltb_spec 0 0); lia).
    replace (slice_bound (length train) (-1)) with (pred (length train))
      by (unfold slice_bound; destruct (Z.ltb_spec (-1) 0); lia).
    rewrite Nat.sub_0_r; simpl skipn.
    symmetry; apply removelast_firstn_len.
Qed.

(** ** A weight outside the unit interval *)



(** ** The loss and minus the logarithm of the metric *)



